(** * Clinical-trials agent, browser client: streaming consumer,
    conversation reconstruction and client identity

  Shallow embedding of the TypeScript sources

  - [ui/lib/api.ts]: [isSecureUrl], [fetchWithClientId], [streamQuery];
  - [ui/hooks/useStreamingQuery.ts]: [cancelQuery], [executeQuery], and the
    hook [useConversation] that follows it there, with [selectConversation];
  - the client identity module that follows the tests in
    [ui/e2e/home.spec.ts]: [hashString], [generateDeviceFingerprint],
    [getClientId], [setClientId], [clearClientId];
  - [ui/lib/settings.ts]: [getOpenAIApiKey];
  - [ui/types/index.ts]: [Message], [ApiMessage], [StreamEvent].

  A JavaScript string is a Rocq [string], one [ascii] per code unit (code
  units below 256).  [localStorage] and request headers are finite maps
  from strings to strings.  The [AbortController]s allocated by the hook
  live in a list indexed by allocation order, and the hook's ref holds an
  index into it. *)

From Stdlib Require Import ZArith Ascii String List Lia Bool.
From stdpp Require Import gmap strings list.

Local Open Scope string_scope.
Local Open Scope list_scope.

(** ** JavaScript string and number primitives used by the sources *)
Module JS.

(** Truthiness of a string: every string but the empty one. *)
Definition truthy (s : string) : bool :=
  match s with
  | EmptyString => false
  | String _ _ => true
  end.

(** Truthiness of [string | null | undefined]. *)
Definition truthy_opt (o : option string) : bool :=
  match o with
  | Some s => truthy s
  | None => false
  end.

(** [a || b] at type [string | null]. *)
Definition or_else (a b : option string) : option string :=
  if truthy_opt a then a else b.

(** [a || "lit"] at type [string | undefined] with a string default. *)
Definition or_str (a : option string) (d : string) : string :=
  match a with
  | Some s => if truthy s then s else d
  | None => d
  end.

(** [s.startsWith(p)]. *)
Definition startsWith (s p : string) : bool := String.prefix p s.

(** [s.includes(sub)]: [sub] occurs somewhere in [s]. *)
Fixpoint includes (s sub : string) : bool :=
  String.prefix sub s ||
  match s with
  | EmptyString => false
  | String _ s' => includes s' sub
  end.

(** [s.slice(n)] for [0 <= n]. *)
Fixpoint slice_from (n : nat) (s : string) : string :=
  match n, s with
  | O, _ => s
  | S k, EmptyString => EmptyString
  | S k, String _ s' => slice_from k s'
  end.

(** The first [n] characters of [s] (all of [s] when it is shorter). *)
Fixpoint take (n : nat) (s : string) : string :=
  match n, s with
  | O, _ => EmptyString
  | S k, EmptyString => EmptyString
  | S k, String c s' => String c (take k s')
  end.

(** [s.slice(a, b)] for [0 <= a], [0 <= b]; empty when [b <= a]. *)
Definition slice (a b : nat) (s : string) : string :=
  take (b - a) (slice_from a s).

(** White space and line terminators removed by [trim], among the code
    units below 256: TAB, LF, VT, FF, CR, SPACE and NBSP. *)
Definition is_space (c : ascii) : bool :=
  let n := nat_of_ascii c in
  (Nat.eqb n 9 || Nat.eqb n 10 || Nat.eqb n 11 || Nat.eqb n 12
   || Nat.eqb n 13 || Nat.eqb n 32 || Nat.eqb n 160)%bool.

Fixpoint trimStart (s : string) : string :=
  match s with
  | EmptyString => EmptyString
  | String c s' => if is_space c then trimStart s' else s
  end.

(** [trimEnd]: a character is dropped when it is a space and everything
    after it has been dropped. *)
Fixpoint trimEnd (s : string) : string :=
  match s with
  | EmptyString => EmptyString
  | String c s' =>
      match trimEnd s' with
      | EmptyString => if is_space c then EmptyString else String c EmptyString
      | t => String c t
      end
  end.

(** [s.trim()]. *)
Definition trim (s : string) : string := trimEnd (trimStart s).

(** [s.split("").reverse().join("")]. *)
Fixpoint reverse (s : string) : string :=
  match s with
  | EmptyString => EmptyString
  | String c s' => reverse s' +:+ String c EmptyString
  end.

(** [parts.join(sep)]. *)
Fixpoint join (sep : string) (parts : list string) : string :=
  match parts with
  | [] => EmptyString
  | [p] => p
  | p :: ps => p +:+ sep +:+ join sep ps
  end.

Fixpoint repeat_char (c : ascii) (n : nat) : string :=
  match n with
  | O => EmptyString
  | S k => String c (repeat_char c k)
  end.

(** [s.padStart(n, "0")] with a one-character filler. *)
Definition padStart (n : nat) (c : ascii) (s : string) : string :=
  repeat_char c (n - String.length s) +:+ s.

(** The digit character of [d] in a base of at most 16 (lower case, as
    [Number.prototype.toString] prints it). *)
Definition digit_char (d : Z) : ascii :=
  if (d <? 10)%Z then ascii_of_nat (48 + Z.to_nat d)
  else ascii_of_nat (87 + Z.to_nat d).

(** Digits of a non-negative integer, most significant first; [fuel]
    bounds the number of digits. *)
Fixpoint digits (fuel : nat) (base n : Z) : string :=
  match fuel with
  | O => String (digit_char (n mod base)) EmptyString
  | S k =>
      if (n <? base)%Z then String (digit_char n) EmptyString
      else digits k base (n / base) +:+ String (digit_char (n mod base)) EmptyString
  end.

(** [n.toString(base)] for an integer [n]; a number has at most
    [log2 n + 1] digits in any base from 2 on. *)
Definition toString (base n : Z) : string :=
  if (n <? 0)%Z then String "-" (digits (Z.to_nat (Z.log2 (- n))) base (- n))
  else digits (Z.to_nat (Z.log2 n)) base n.

(** [ToInt32]: the value modulo 2^32 in the signed range. *)
Definition toInt32 (z : Z) : Z :=
  ((z + 2 ^ 31) mod 2 ^ 32 - 2 ^ 31)%Z.

(** [z >>> 0]: the value modulo 2^32 in the unsigned range. *)
Definition toUint32 (z : Z) : Z := (z mod 2 ^ 32)%Z.

(** [a ^ b] on numbers holding integers: both operands through [ToInt32],
    the exclusive or bit by bit, the result a signed 32-bit integer. *)
Definition xor32 (a b : Z) : Z := Z.lxor (toInt32 a) (toInt32 b).

(** [s.charCodeAt(i)] of every [i], in order. *)
Fixpoint charCodes (s : string) : list Z :=
  match s with
  | EmptyString => []
  | String c s' => Z.of_nat (nat_of_ascii c) :: charCodes s'
  end.

End JS.

(** ** [ui/types/index.ts] *)

(** [Message]: the frontend representation of a conversation turn. *)
Inductive Role := user | assistant.

Record Message := {
msg_id : string;
msg_role : Role;
msg_content : string;
msg_sqlQuery : option string
}.

(** One entry of [tool_calls]: [{ name?: string; args?: { query?: string } }];
  the outer option of [tc_args] is the optional [args] object, the inner
  one its optional [query]. *)
Record ToolCall := {
tc_name : option string;
tc_args : option (option string)
}.

(** [ApiMessage], as the backend returns it; [tool_calls] absent or [null]
  is [None]. *)
Record ApiMessage := {
api_id : string;
api_role : string;
api_content : string;
api_tool_calls : option (list ToolCall)
}.

(** ** [useConversation]: rebuilding the display messages

  The hook follows [useStreamingQuery] in [ui/hooks/useStreamingQuery.ts]. *)
Module Conversation.

(** [m.tool_calls?.[0]?.args?.query ?? null]. *)
Definition first_query (m : ApiMessage) : option string :=
  match api_tool_calls m with
  | Some (tc :: _) =>
      match tc_args tc with
      | Some q => q
      | None => None
      end
  | _ => None
  end.

Definition role_of (r : string) : option Role :=
  if String.eqb r "user" then Some user
  else if String.eqb r "assistant" then Some assistant
  else None.

(** The body of the [for (const m of detail.messages)] loop of
    [selectConversation], on the pair of [transformedMessages] and
    [pendingSqlQuery]. *)
Definition transform_step (acc : list Message * option string) (m : ApiMessage)
  : list Message * option string :=
  let '(transformedMessages, pendingSqlQuery) := acc in
  match role_of (api_role m) with
  | None => acc
  | Some r =>
      let sqlQuery := first_query m in
      let pendingSqlQuery :=
        if JS.truthy_opt sqlQuery then sqlQuery else pendingSqlQuery in
      if negb (JS.truthy (JS.trim (api_content m)))
      then (transformedMessages, pendingSqlQuery)
      else
        let shown :=
          {| msg_id := api_id m;
             msg_role := r;
             msg_content := api_content m;
             msg_sqlQuery :=
               match r with
               | assistant => JS.or_else sqlQuery pendingSqlQuery
               | user => None
               end |} in
        (transformedMessages ++ [shown],
         match r with assistant => None | user => pendingSqlQuery end)
  end.

(** The messages [selectConversation] hands to [setMessages]. *)
Definition transformMessages (messages : list ApiMessage) : list Message :=
  fst (fold_left transform_step messages ([], None)).

(** A record with every entry of [tool_calls] after the first removed. *)
Definition keep_first_tool_call (m : ApiMessage) : ApiMessage :=
  {| api_id := api_id m;
     api_role := api_role m;
     api_content := api_content m;
     api_tool_calls :=
       match api_tool_calls m with
       | Some (tc :: _) => Some [tc]
       | other => other
       end |}.

End Conversation.


(** ** The device identity

    The module imported as [./clientId]; it follows the end-to-end tests in
    [ui/e2e/home.spec.ts]. *)
Module ClientId.

Definition CLIENT_ID_KEY : string := "clinical-trials-client-id".

(** [hashString]: [hash = (hash * 33) ^ str.charCodeAt(i)] from 5381, then
    [hash >>> 0].  The product is exact (the running hash is a signed 32-bit
    integer, so the product stays far below 2^53). *)
Definition hashString (str : string) : Z :=
  JS.toUint32
    (fold_left (fun hash code => JS.xor32 (hash * 33) code) (JS.charCodes str) 5381%Z).

(** [h.toString(16).padStart(8, "0")]. *)
Definition hex8 (h : Z) : string := JS.padStart 8 "0" (JS.toString 16 h).

(** The second half of [generateDeviceFingerprint]: from the joined
    components to the identifier. *)
Definition formatFingerprint (fingerprint : string) : string :=
  let hash1 := hashString fingerprint in
  let hash2 := hashString (JS.reverse fingerprint) in
  let hex1 := hex8 hash1 in
  let hex2 := hex8 hash2 in
  let hex3 := hex8 (hashString (JS.toString 10 hash1 +:+ JS.toString 10 hash2)) in
  let hex4 := hex8 (hashString (fingerprint +:+ "salt")) in
  hex1 +:+ "-" +:+ JS.slice 0 4 hex2 +:+ "-4" +:+ JS.slice 5 8 hex2
       +:+ "-" +:+ JS.slice 0 4 hex3
       +:+ "-" +:+ JS.slice_from 4 hex3 +:+ JS.slice 0 4 hex4.

Section Device.

(** JavaScript numbers read from the browser are kept abstract: all the
    routine does with them is test their truthiness and print them. *)
Context {number : Type}.
Variable numToString : number -> string.
Variable numTruthy : number -> bool.
Variable numOfZ : Z -> number.

(** What [screen], [window], [Intl] and [navigator] report. *)
Record Device := {
  screen_width : number;
  screen_height : number;
  screen_colorDepth : number;
  screen_pixelDepth : number;
  devicePixelRatio : option number;
  timeZone : option string;
  language : option string;
  languages : option (list string);
  platform : option string;
  hardwareConcurrency : option number;
  deviceMemory : option number
}.

(** [`${x || d}`] for a number [x] that may be missing. *)
Definition num_or (x : option number) (d : Z) : string :=
  match x with
  | Some n => if numTruthy n then numToString n else numToString (numOfZ d)
  | None => numToString (numOfZ d)
  end.

Definition components (d : Device) : list string :=
  [ numToString (screen_width d) +:+ "x" +:+ numToString (screen_height d);
    numToString (screen_colorDepth d);
    numToString (screen_pixelDepth d);
    num_or (devicePixelRatio d) 1;
    JS.or_str (timeZone d) "";
    JS.or_str (language d) "";
    JS.join "," (default [] (languages d));
    JS.or_str (platform d) "";
    num_or (hardwareConcurrency d) 0;
    num_or (deviceMemory d) 0 ].

(** [generateDeviceFingerprint]; [None] is [typeof window === "undefined"]. *)
Definition generateDeviceFingerprint (window : option Device) : string :=
  match window with
  | None => ""
  | Some d => formatFingerprint (JS.join "|" (components d))
  end.

(** [getClientId]: the value returned and [localStorage] afterwards. *)
Definition getClientId (window : option Device) (localStorage : gmap string string)
  : string * gmap string string :=
  match window with
  | None => ("", localStorage)
  | Some _ =>
      let stored := localStorage !! CLIENT_ID_KEY in
      if JS.truthy_opt stored then (default "" stored, localStorage)
      else
        let fingerprint := generateDeviceFingerprint window in
        (fingerprint,
         if JS.truthy fingerprint
         then <[CLIENT_ID_KEY := fingerprint]> localStorage
         else localStorage)
  end.

(** [setClientId]. *)
Definition setClientId (window : option Device) (clientId : string)
  (localStorage : gmap string string) : gmap string string :=
  match window with
  | None => localStorage
  | Some _ => <[CLIENT_ID_KEY := clientId]> localStorage
  end.

(** [clearClientId]. *)
Definition clearClientId (window : option Device) (localStorage : gmap string string)
  : gmap string string :=
  match window with
  | None => localStorage
  | Some _ => delete CLIENT_ID_KEY localStorage
  end.

(** [regenerateClientId]. *)
Definition regenerateClientId (window : option Device) (localStorage : gmap string string)
  : string * gmap string string :=
  getClientId window (clearClientId window localStorage).

End Device.

(** The shape the specification asks of an identifier: 8-4-4-4-12
    hexadecimal digits between hyphens. *)
Definition is_hex_digit (c : ascii) : bool :=
  let n := nat_of_ascii c in
  ((Nat.leb 48 n && Nat.leb n 57) || (Nat.leb 97 n && Nat.leb n 102))%bool.

Fixpoint all_hex (s : string) : bool :=
  match s with
  | EmptyString => true
  | String c s' => is_hex_digit c && all_hex s'
  end.

(** Groups of hexadecimal digits of the given lengths, one hyphen between
    two groups and nothing after the last. *)
Fixpoint grouped (lengths : list nat) (s : string) : bool :=
  match lengths with
  | [] => false
  | [n] => Nat.eqb (String.length s) n && all_hex s
  | n :: more =>
      all_hex (JS.take n s) && Nat.eqb (String.length (JS.take n s)) n
      && match JS.slice_from n s with
         | String "-" s' => grouped more s'
         | _ => false
         end
  end.

Definition uuid_shaped (s : string) : bool := grouped [8; 4; 4; 4; 12]%nat s.

End ClientId.

(** ** [ui/lib/settings.ts] *)
Module Settings.

Definition OPENAI_API_KEY_STORAGE_KEY : string := "clinical-trials-openai-api-key".

(** [getOpenAIApiKey]; [has_window = false] is the server side. *)
Definition getOpenAIApiKey (has_window : bool) (localStorage : gmap string string)
  : option string :=
  if has_window then localStorage !! OPENAI_API_KEY_STORAGE_KEY else None.

End Settings.

(** ** Streaming events ([ui/types/index.ts]) *)

(** [StreamEvent]: the [type] tag as it arrives and the optional fields;
    [sql_query] absent or [null] is [None]. *)
Record StreamEvent := {
  ev_type : string;
  ev_stage : option string;
  ev_label : option string;
  ev_content : option string;
  ev_query : option string;
  ev_conversation_id : option string;
  ev_answer : option string;
  ev_sql_query : option string;
  ev_message : option string;
  ev_code : option string
}.

(** [JSON.parse] is the platform's: [None] when it throws, otherwise the
    value at the type [streamQuery] casts it to. *)
Class JsonParser := JSON_parse : string -> option StreamEvent.

(** What the response body will deliver to [reader.read()], as the text
    [decoder.decode(value, { stream: true })] makes of each chunk (in
    streaming mode the decoder holds an incomplete multi-byte sequence back
    for the next chunk, so the texts of the chunks add up to the text of
    the body): chunks, then the end of the data or a failure, which is a
    read that throws or, before any chunk, a request that is refused or
    answered with an error status. *)
Inductive Source :=
| Chunk (text : string) (rest : Source)
| EndOfData
| ReadFails (message : string).

(** ** [ui/lib/api.ts] *)
Module Api.

Definition DEFAULT_API_URL : string := "http://localhost:8000".

(** [process.env.NEXT_PUBLIC_API_URL || "http://localhost:8000"]. *)
Definition API_BASE_URL (NEXT_PUBLIC_API_URL : option string) : string :=
  JS.or_str NEXT_PUBLIC_API_URL DEFAULT_API_URL.

(** [isSecureUrl]. *)
Definition isSecureUrl (url : string) : bool :=
  JS.startsWith url "https://" || JS.includes url "localhost"
  || JS.includes url "127.0.0.1".

Definition streamUrl (NEXT_PUBLIC_API_URL : option string) : string :=
  API_BASE_URL NEXT_PUBLIC_API_URL +:+ "/api/v1/query/stream".

(** The headers [streamQuery] and [fetchWithClientId] put on a request to
    [url]. *)
Definition request_headers (clientId : string) (openaiApiKey : option string)
  (url : string) : gmap string string :=
  let headers : gmap string string := {[ "Content-Type" := "application/json" ]} in
  let headers :=
    if JS.truthy clientId then <["X-Client-ID" := clientId]> headers else headers in
  if JS.truthy_opt openaiApiKey && isSecureUrl url
  then <["X-OpenAI-API-Key" := default "" openaiApiKey]> headers
  else headers.

(** The headers of the streaming request, from the build-time base URL and
    the browser's storage. *)
Definition streamQuery_headers (NEXT_PUBLIC_API_URL : option string)
  (clientId : string) (localStorage : gmap string string) : gmap string string :=
  request_headers clientId (Settings.getOpenAIApiKey true localStorage)
                  (streamUrl NEXT_PUBLIC_API_URL).

(** *** The frame decoder of [streamQuery] *)

Definition is_nl (c : ascii) : bool := Nat.eqb (nat_of_ascii c) 10.

Definition BLANK_LINE : string :=
  String (ascii_of_nat 10) (String (ascii_of_nat 10) EmptyString).

(** Put a character in front of the first piece. *)
Definition cons_head (c : ascii) (pieces : list string) : list string :=
  match pieces with
  | p :: ps => String c p :: ps
  | [] => [String c EmptyString]
  end.

(** [buffer.split("\n\n")]: the pieces between the occurrences of two line
    feeds, found from the left without overlap. *)
Fixpoint split_blank (s : string) : list string :=
  match s with
  | EmptyString => [EmptyString]
  | String c rest =>
      match rest with
      | EmptyString => [String c EmptyString]
      | String c2 rest2 =>
          if is_nl c && is_nl c2 then EmptyString :: split_blank rest2
          else cons_head c (split_blank rest)
      end
  end.

(** [const lines = buffer.split("\n\n"); buffer = lines.pop() || ""]: the
    pieces but the last, and the last. *)
Definition split_buffer (buffer : string) : list string * string :=
  let pieces := split_blank buffer in
  (removelast pieces, JS.or_str (last pieces) "").

(** How a generator that is run to its end finishes. *)
Inductive Finish :=
| Completed
| Threw (message : string).

(** The closed pieces and the open piece of a text. *)
Definition lines_of (x : string) : list string := fst (split_buffer x).
Definition buffer_of (x : string) : string := snd (split_buffer x).

(** The text a body delivers, and how reading it ends. *)
Fixpoint text_of (src : Source) : string :=
  match src with
  | Chunk text rest => text +:+ text_of rest
  | _ => EmptyString
  end.

(** How reading a body to its end finishes. *)
Fixpoint finish_of (src : Source) : Finish :=
  match src with
  | Chunk _ rest => finish_of rest
  | EndOfData => Completed
  | ReadFails message => Threw message
  end.

Section Decoder.
Context `{parser : JsonParser}.

(** One piece of the buffer: a piece that starts with the marker has the
    text after it parsed, and is dropped when parsing throws; any other
    piece is dropped. *)
Definition parse_line (line : string) : option StreamEvent :=
  if JS.startsWith line "data: " then JSON_parse (JS.slice_from 6 line) else None.

(** The events yielded by [for (const line of lines)]. *)
Definition parse_lines (lines : list string) : list StreamEvent :=
  omap parse_line lines.

(** One turn of the [while] loop after a read that delivered [text]: the
    events to yield, and the buffer kept for the next turn. *)
Definition process_chunk (buffer text : string) : list StreamEvent * string :=
  let '(lines, buffer) := split_buffer (buffer +:+ text) in
  (parse_lines lines, buffer).

(** [streamQuery] consumed to its end with no cancellation signal: every
    event it yields, in order, and how it finishes. *)
Fixpoint decode (buffer : string) (src : Source) : list StreamEvent * Finish :=
  match src with
  | EndOfData => ([], Completed)
  | ReadFails message => ([], Threw message)
  | Chunk text rest =>
      let '(events, buffer) := process_chunk buffer text in
      let '(later, finish) := decode buffer rest in
      (events ++ later, finish)
  end.

Definition streamQuery_events (src : Source) : list StreamEvent * Finish :=
  decode "" src.

End Decoder.

(** A body delivered as the given chunks and then ended. *)
Fixpoint chunked (chunks : list string) : Source :=
  match chunks with
  | [] => EndOfData
  | text :: more => Chunk text (chunked more)
  end.

(** The chunks put back together. *)
Fixpoint whole (chunks : list string) : string :=
  match chunks with
  | [] => EmptyString
  | text :: more => text +:+ whole more
  end.

(** A frame as the server writes it: the marker, the payload, a blank
    line. *)
Definition frame (payload : string) : string :=
  "data: " +:+ payload +:+ BLANK_LINE.

Fixpoint frames (payloads : list string) : string :=
  match payloads with
  | [] => EmptyString
  | p :: more => frame p +:+ frames more
  end.

(** A payload line holds no line feed. *)
Fixpoint one_line (s : string) : bool :=
  match s with
  | EmptyString => true
  | String c s' => negb (is_nl c) && one_line s'
  end.

End Api.

(** ** What the specification calls a secure destination

    Following the specification's words: the URL is HTTPS, or its host is a
    loopback address. *)
Module SecureDestination.

Fixpoint take_until (stop : ascii -> bool) (s : string) : string :=
  match s with
  | EmptyString => EmptyString
  | String c s' => if stop c then EmptyString else String c (take_until stop s')
  end.

(** The text after the first ["://"], or the whole when there is none. *)
Fixpoint after_scheme_from (s all : string) : string :=
  match s with
  | EmptyString => all
  | String _ s' => if String.prefix "://" s then JS.slice_from 3 s
                   else after_scheme_from s' all
  end.

Definition after_scheme (url : string) : string := after_scheme_from url url.

(** The text after the last ["@"], or the whole when there is none. *)
Fixpoint after_userinfo (s : string) : string :=
  match s with
  | EmptyString => EmptyString
  | String c s' =>
      if JS.includes s "@"
      then (if Ascii.eqb c "@" && negb (JS.includes s' "@") then s' else after_userinfo s')
      else s
  end.

Definition is_path_start (c : ascii) : bool :=
  Ascii.eqb c "/" || Ascii.eqb c "?" || Ascii.eqb c "#".

(** The host of a URL: the authority without user information and port. *)
Definition url_host (url : string) : string :=
  let authority := after_userinfo (take_until is_path_start (after_scheme url)) in
  match authority with
  | String "[" _ => take_until (fun c => Ascii.eqb c "]") authority +:+ "]"
  | _ => take_until (fun c => Ascii.eqb c ":") authority
  end.

Definition is_https (url : string) : bool := String.prefix "https://" url.

(** Loopback hosts: the name [localhost], the IPv4 block 127.0.0.0/8 in
    dotted form, and the IPv6 address [::1]. *)
Fixpoint dotted_digits (s : string) : bool :=
  match s with
  | EmptyString => true
  | String c s' =>
      let n := nat_of_ascii c in
      ((Nat.eqb n 46 || (Nat.leb 48 n && Nat.leb n 57)) && dotted_digits s')%bool
  end.

Definition is_loopback_host (host : string) : bool :=
  String.eqb host "localhost"
  || (String.prefix "127." host && dotted_digits host)
  || String.eqb host "[::1]".

Definition secure_destination (url : string) : bool :=
  is_https url || is_loopback_host (url_host url).

End SecureDestination.

(** ** [ui/hooks/useStreamingQuery.ts] *)
Module StreamingQuery.

Record StreamResult := {
  conversationId : string;
  answer : string;
  sqlQuery : option string
}.

(** A call of one of the observers in [StreamCallbacks]. *)
Inductive Callback :=
| OnStage (stage label : string)
| OnToken (token : string)
| OnSql (query : string)
| OnComplete (result : StreamResult)
| OnError (error : string) (code : option string).

(** The state of one [useStreamingQuery] instance.  [abortControllerRef]
    holds the index of an [AbortController] in [controllers], the list of
    the [aborted] flags of the controllers made so far. *)
Record HookState := {
  isStreaming : bool;
  streamedContent : string;
  currentSqlQuery : option string;
  currentStage : option string;
  error : option string;
  abortControllerRef : option nat;
  controllers : list bool
}.

Definition initial : HookState :=
  {| isStreaming := false; streamedContent := ""; currentSqlQuery := None;
     currentStage := None; error := None; abortControllerRef := None;
     controllers := [] |}.

Definition setIsStreaming (b : bool) (h : HookState) : HookState :=
  {| isStreaming := b; streamedContent := streamedContent h;
     currentSqlQuery := currentSqlQuery h; currentStage := currentStage h;
     error := error h; abortControllerRef := abortControllerRef h;
     controllers := controllers h |}.

Definition setStreamedContent (f : string -> string) (h : HookState) : HookState :=
  {| isStreaming := isStreaming h; streamedContent := f (streamedContent h);
     currentSqlQuery := currentSqlQuery h; currentStage := currentStage h;
     error := error h; abortControllerRef := abortControllerRef h;
     controllers := controllers h |}.

Definition setCurrentSqlQuery (q : option string) (h : HookState) : HookState :=
  {| isStreaming := isStreaming h; streamedContent := streamedContent h;
     currentSqlQuery := q; currentStage := currentStage h;
     error := error h; abortControllerRef := abortControllerRef h;
     controllers := controllers h |}.

Definition setCurrentStage (s : option string) (h : HookState) : HookState :=
  {| isStreaming := isStreaming h; streamedContent := streamedContent h;
     currentSqlQuery := currentSqlQuery h; currentStage := s;
     error := error h; abortControllerRef := abortControllerRef h;
     controllers := controllers h |}.

Definition setError (e : option string) (h : HookState) : HookState :=
  {| isStreaming := isStreaming h; streamedContent := streamedContent h;
     currentSqlQuery := currentSqlQuery h; currentStage := currentStage h;
     error := e; abortControllerRef := abortControllerRef h;
     controllers := controllers h |}.

(** Assignment to [abortControllerRef.current]. *)
Definition setRef (r : option nat) (h : HookState) : HookState :=
  {| isStreaming := isStreaming h; streamedContent := streamedContent h;
     currentSqlQuery := currentSqlQuery h; currentStage := currentStage h;
     error := error h; abortControllerRef := r;
     controllers := controllers h |}.

Definition setControllers (cs : list bool) (h : HookState) : HookState :=
  {| isStreaming := isStreaming h; streamedContent := streamedContent h;
     currentSqlQuery := currentSqlQuery h; currentStage := currentStage h;
     error := error h; abortControllerRef := abortControllerRef h;
     controllers := cs |}.

(** [signal?.aborted] for an optional signal, the signal being the one of
    the controller at that index. *)
Definition aborted (cs : list bool) (signal : option nat) : bool :=
  match signal with
  | Some p => default false (cs !! p)
  | None => false
  end.

(** [cancelQuery]. *)
Definition cancelQuery (h : HookState) : HookState :=
  let h :=
    match abortControllerRef h with
    | Some p => setRef None (setControllers (<[p := true]> (controllers h)) h)
    | None => h
    end in
  setIsStreaming false h.

(** [executeQuery] up to the [try]: cancel, reset, and a new controller in
    the ref. *)
Definition executeQuery_begin (h : HookState) : HookState :=
  let h := cancelQuery h in
  let h := setIsStreaming true h in
  let h := setStreamedContent (fun _ => "") h in
  let h := setCurrentSqlQuery None h in
  let h := setCurrentStage None h in
  let h := setError None h in
  setRef (Some (length (controllers h))) (setControllers (controllers h ++ [false]) h).

(** What the [for await] loop of one call works on: the hook's state, the
    call's local [result], and the observer calls it has made. *)
Record Loop := {
  hook : HookState;
  result : option StreamResult;
  observed : list Callback
}.

Definition with_hook (f : HookState -> HookState) (l : Loop) : Loop :=
  {| hook := f (hook l); result := result l; observed := observed l |}.

Definition call (cb : Callback) (l : Loop) : Loop :=
  {| hook := hook l; result := result l; observed := observed l ++ [cb] |}.

(** The [if]/[else if] chain of the loop body. *)
Definition on_event (event : StreamEvent) (l : Loop) : Loop :=
  if String.eqb (ev_type event) "stage" && JS.truthy_opt (ev_label event) then
    let label := default "" (ev_label event) in
    call (OnStage (JS.or_str (ev_stage event) "") label)
         (with_hook (setCurrentStage (Some label)) l)
  else if String.eqb (ev_type event) "token" && JS.truthy_opt (ev_content event) then
    let content := default "" (ev_content event) in
    call (OnToken content)
         (with_hook (setStreamedContent (fun prev => prev +:+ content)) l)
  else if String.eqb (ev_type event) "sql" && JS.truthy_opt (ev_query event) then
    let query := default "" (ev_query event) in
    call (OnSql query) (with_hook (setCurrentSqlQuery (Some query)) l)
  else if String.eqb (ev_type event) "done" then
    let r := {| conversationId := JS.or_str (ev_conversation_id event) "";
                answer := JS.or_str (ev_answer event) "";
                sqlQuery := ev_sql_query event |} in
    call (OnComplete r)
         {| hook := hook l; result := Some r; observed := observed l |}
  else if String.eqb (ev_type event) "error" then
    let errorMsg := JS.or_str (ev_message event) "An error occurred" in
    call (OnError errorMsg (ev_code event)) (with_hook (setError (Some errorMsg)) l)
  else l.

(** The check that opens the loop body:
    [abortControllerRef.current?.signal.aborted]. *)
Definition cancelled (h : HookState) : bool :=
  aborted (controllers h) (abortControllerRef h).

(** The loop over the events one read has produced; the flag says that the
    loop was left by [break]. *)
Fixpoint consume (events : list StreamEvent) (l : Loop) : Loop * bool :=
  match events with
  | [] => (l, false)
  | event :: more =>
      if cancelled (hook l) then (l, true) else consume more (on_event event l)
  end.

(** The loop body on every event of a list, in order. *)
Definition events_handled (events : list StreamEvent) (l : Loop) : Loop :=
  fold_left (fun l event => on_event event l) events l.

(** The [finally] block of [executeQuery]. *)
Definition finally (h : HookState) : HookState :=
  setRef None (setIsStreaming false h).

(** How a call ends: the value its promise resolves to, and whether
    [streamQuery] has called [reader.cancel()]. *)
Record Ending := {
  returned : option StreamResult;
  reader_cancelled : bool
}.

(** Leaving the loop, by the end of the generator or by [break]:
    [streamQuery]'s own [finally] cancels the reader when its signal is
    aborted; then [return result] and the [finally] block. *)
Definition leave (signal : option nat) (l : Loop) : Loop * Ending :=
  (with_hook finally l,
   {| returned := result l;
      reader_cancelled := aborted (controllers (hook l)) signal |}).

(** The [catch] block, then the [finally] block. *)
Definition fail (signal : option nat) (errorMsg : string) (l : Loop) : Loop * Ending :=
  (with_hook finally (call (OnError errorMsg None) (with_hook (setError (Some errorMsg)) l)),
   {| returned := None;
      reader_cancelled := aborted (controllers (hook l)) signal |}).

Section Consumer.
Context `{parser : JsonParser}.

(** The rest of a call that nothing interrupts, from the generator's
    [while] loop on: [signal] is what [streamQuery] was given as its third
    argument. *)
Fixpoint pump (signal : option nat) (src : Source) (buffer : string) (l : Loop)
  : Loop * Ending :=
  if aborted (controllers (hook l)) signal
  then (with_hook finally l, {| returned := result l; reader_cancelled := true |})
  else
    match src with
    | EndOfData => leave signal l
    | ReadFails message => fail signal message l
    | Chunk text rest =>
        let '(events, buffer) := Api.process_chunk buffer text in
        let '(l, broke) := consume events l in
        if broke then leave signal l else pump signal rest buffer l
    end.

(** [executeQuery] run alone on a response body: [executeQuery] calls
    [streamQuery(question, conversationId)], without a signal.  The result
    is the hook's state afterwards, the observer calls made, and the
    ending. *)
Definition executeQuery (src : Source) (h : HookState)
  : HookState * list Callback * Ending :=
  let l := {| hook := executeQuery_begin h; result := None; observed := [] |} in
  let '(l, ending) := pump None src "" l in
  (hook l, observed l, ending).

(** *** Several calls on one hook instance

    JavaScript runs one task at a time: a task runs from a settled read to
    the next pending one, and calls of [executeQuery] and [cancelQuery]
    from the page come between tasks. *)

(** A call of [executeQuery] in flight. *)
Record Call := {
  call_signal : option nat;
  call_source : Source;
  call_buffer : string;
  call_result : option StreamResult;
  call_ending : option Ending
}.

Inductive LogEntry :=
| Began (i : nat)
| CancelRequested
| Invoked (i : nat) (cb : Callback)
| Settled (i : nat) (value : option StreamResult).

Record World := {
  the_hook : HookState;
  calls : list Call;
  log : list LogEntry
}.

Definition start : World :=
  {| the_hook := initial; calls := []; log := [] |}.

Inductive Action :=
| ExecuteQuery (body : Source)
| CancelQuery
| Read (i : nat).

(** Call [i] ends. *)
Definition settle (i : nat) (c : Call) (w : World) (out : Loop * Ending) : World :=
  let '(l, ending) := out in
  {| the_hook := hook l;
     calls := <[i := {| call_signal := call_signal c; call_source := call_source c;
                        call_buffer := call_buffer c; call_result := result l;
                        call_ending := Some ending |}]> (calls w);
     log := log w ++ map (Invoked i) (observed l) ++ [Settled i (returned ending)] |}.

(** The pending read of call [i] settles and the call runs to its next
    read. *)
Definition read (i : nat) (w : World) : World :=
  match calls w !! i with
  | None => w
  | Some c =>
      match call_ending c with
      | Some _ => w
      | None =>
          let l := {| hook := the_hook w; result := call_result c; observed := [] |} in
          let signal := call_signal c in
          if aborted (controllers (the_hook w)) signal
          then settle i c w (with_hook finally l,
                             {| returned := result l; reader_cancelled := true |})
          else
            match call_source c with
            | EndOfData => settle i c w (leave signal l)
            | ReadFails message => settle i c w (fail signal message l)
            | Chunk text rest =>
                let '(events, buffer) := Api.process_chunk (call_buffer c) text in
                let '(l, broke) := consume events l in
                if broke then settle i c w (leave signal l)
                else
                  {| the_hook := hook l;
                     calls := <[i := {| call_signal := signal; call_source := rest;
                                        call_buffer := buffer; call_result := result l;
                                        call_ending := None |}]> (calls w);
                     log := log w ++ map (Invoked i) (observed l) |}
            end
      end
  end.

Definition step (w : World) (a : Action) : World :=
  match a with
  | ExecuteQuery body =>
      {| the_hook := executeQuery_begin (the_hook w);
         calls := calls w ++ [ {| call_signal := None; call_source := body;
                                  call_buffer := ""; call_result := None;
                                  call_ending := None |} ];
         log := log w ++ [Began (length (calls w))] |}
  | CancelQuery =>
      {| the_hook := cancelQuery (the_hook w); calls := calls w;
         log := log w ++ [CancelRequested] |}
  | Read i => read i w
  end.

Definition run (schedule : list Action) : World := fold_left step schedule start.

End Consumer.

(** A world in which no cancellation can be seen: the check of the loop
    reads [false], no call has a signal, and no reader has been cancelled. *)
Definition unseen (c : Call) : Prop :=
  call_signal c = None
  /\ forall e, call_ending c = Some e -> reader_cancelled e = false.

Definition cancellation_unseen (w : World) : Prop :=
  cancelled (the_hook w) = false /\ Forall unseen (calls w).

(** The entries of a log after the first occurrence of a mark. *)
Fixpoint after (mark : LogEntry -> bool) (entries : list LogEntry) : list LogEntry :=
  match entries with
  | [] => []
  | e :: more => if mark e then more else after mark more
  end.

Definition is_began (i : nat) (e : LogEntry) : bool :=
  match e with Began j => Nat.eqb i j | _ => false end.

Definition is_cancel (e : LogEntry) : bool :=
  match e with CancelRequested => true | _ => false end.

(** The observer calls of call [i] in a log. *)
Definition invoked_by (i : nat) (entries : list LogEntry) : list Callback :=
  omap (fun e => match e with
                 | Invoked j cb => if Nat.eqb i j then Some cb else None
                 | _ => None
                 end) entries.

End StreamingQuery.

(** ** The answer the specification describes

    Following the specification's words: the answer of a result is the
    [done] event's own answer when that is not empty, and otherwise the
    text accumulated from the token events before it. *)
Module SpecifiedAnswer.

Fixpoint accumulated_text (events : list StreamEvent) : string :=
  match events with
  | [] => EmptyString
  | event :: more =>
      (if String.eqb (ev_type event) "token" then JS.or_str (ev_content event) "" else "")
      +:+ accumulated_text more
  end.

Definition answer_with_fallback (earlier : list StreamEvent) (done_event : StreamEvent)
  : string :=
  if JS.truthy_opt (ev_answer done_event)
  then default "" (ev_answer done_event)
  else accumulated_text earlier.

End SpecifiedAnswer.

(** ** Sample payloads and bodies *)
Module Examples.

Definition QUOTE : string := String (ascii_of_nat 34) EmptyString.

Definition quoted (s : string) : string := QUOTE +:+ s +:+ QUOTE.

(** A flat JSON object with string values, as the server writes its
    events. *)
Definition json_object (fields : list (string * string)) : string :=
  "{" +:+ JS.join "," (map (fun kv => quoted (fst kv) +:+ ":" +:+ quoted (snd kv)) fields)
      +:+ "}".

Definition event_of_type (type : string) : StreamEvent :=
  {| ev_type := type; ev_stage := None; ev_label := None; ev_content := None;
     ev_query := None; ev_conversation_id := None; ev_answer := None;
     ev_sql_query := None; ev_message := None; ev_code := None |}.

Definition token_event (content : string) : StreamEvent :=
  {| ev_type := "token"; ev_stage := None; ev_label := None;
     ev_content := Some content;
     ev_query := None; ev_conversation_id := None; ev_answer := None;
     ev_sql_query := None; ev_message := None; ev_code := None |}.

Definition done_event (conversation_id answer : string) : StreamEvent :=
  {| ev_type := "done"; ev_stage := None; ev_label := None; ev_content := None;
     ev_query := None; ev_conversation_id := Some conversation_id;
     ev_answer := Some answer;
     ev_sql_query := None; ev_message := None; ev_code := None |}.

Definition token_payload (content : string) : string :=
  json_object [("type", "token"); ("content", content)].

Definition done_payload (conversation_id answer : string) : string :=
  json_object [("type", "done"); ("conversation_id", conversation_id);
               ("answer", answer)].

(** A payload cut short, which [JSON.parse] rejects. *)
Definition malformed_payload : string := "{" +:+ quoted "type" +:+ ":".

(** [JSON.parse] on the payloads of the examples: the objects above parse
    to their events, the malformed payload throws, and no other payload
    occurs. *)
Definition sample_payloads : list (string * StreamEvent) :=
  [ (token_payload "Hello ", token_event "Hello ");
    (token_payload "world", token_event "world");
    (token_payload "other", token_event "other");
    (done_payload "c1" "", done_event "c1" "");
    (done_payload "c2" "Second answer", done_event "c2" "Second answer") ].

#[local] Instance sample_parser : JsonParser :=
  fun payload =>
    match find (fun kv => String.eqb payload (fst kv)) sample_payloads with
    | Some kv => Some (snd kv)
    | None => None
    end.

(** The answer "Hello world" sent as two tokens, then a [done] event with
    an empty answer: one read delivers the first token, the next the rest. *)
Definition hello_world : Source :=
  Chunk (Api.frame (token_payload "Hello "))
    (Chunk (Api.frame (token_payload "world") +:+ Api.frame (done_payload "c1" ""))
       EndOfData).

(** A body whose second read fails. *)
Definition hello_then_failure : Source :=
  Chunk (Api.frame (token_payload "Hello ")) (ReadFails "network error").

(** The body of a second request. *)
Definition second_answer : Source :=
  Chunk (Api.frame (token_payload "other")
         +:+ Api.frame (done_payload "c2" "Second answer"))
    EndOfData.

End Examples.


(** ** More of [ui/lib/settings.ts], and the settings dialog *)
Module SettingsStore.
Import Settings.

(** [setOpenAIApiKey]: [null] or the empty string clears the key. *)
Definition setOpenAIApiKey (has_window : bool) (apiKey : option string)
  (localStorage : gmap string string) : gmap string string :=
  if has_window then
    if JS.truthy_opt apiKey
    then <[OPENAI_API_KEY_STORAGE_KEY := default "" apiKey]> localStorage
    else delete OPENAI_API_KEY_STORAGE_KEY localStorage
  else localStorage.

(** [hasCustomApiKey]: [!!getOpenAIApiKey()]. *)
Definition hasCustomApiKey (has_window : bool) (localStorage : gmap string string) : bool :=
  JS.truthy_opt (getOpenAIApiKey has_window localStorage).

(** The class [[a-zA-Z0-9_-]]. *)
Definition is_key_char (c : ascii) : bool :=
  let n := nat_of_ascii c in
  ((Nat.leb 97 n && Nat.leb n 122) || (Nat.leb 65 n && Nat.leb n 90)
   || (Nat.leb 48 n && Nat.leb n 57) || Nat.eqb n 95 || Nat.eqb n 45)%bool.

Fixpoint all_key_chars (s : string) : bool :=
  match s with
  | EmptyString => true
  | String c s' => is_key_char c && all_key_chars s'
  end.

(** [isValidApiKeyFormat]: [/^sk-[a-zA-Z0-9_-]{20,}$/.test(apiKey)]. *)
Definition isValidApiKeyFormat (apiKey : string) : bool :=
  JS.startsWith apiKey "sk-"
  && Nat.leb 20 (String.length (JS.slice_from 3 apiKey))
  && all_key_chars (JS.slice_from 3 apiKey).

(** The state of the settings dialog that [handleSave] and [handleClear]
    work on. *)
Record Dialog := {
  dlg_apiKey : string;
  dlg_hasKey : bool;
  dlg_error : option string;
  dlg_saved : bool
}.

(** [handleSave] in the browser: the dialog and [localStorage] afterwards.
    The closing of the dialog after a delay is left out. *)
Definition handleSave (d : Dialog) (localStorage : gmap string string)
  : Dialog * gmap string string :=
  if JS.truthy (dlg_apiKey d) && negb (isValidApiKeyFormat (dlg_apiKey d))
  then ({| dlg_apiKey := dlg_apiKey d; dlg_hasKey := dlg_hasKey d;
           dlg_error := Some "Invalid API key format. Keys should start with 'sk-'";
           dlg_saved := dlg_saved d |},
        localStorage)
  else ({| dlg_apiKey := dlg_apiKey d; dlg_hasKey := JS.truthy (dlg_apiKey d);
           dlg_error := None; dlg_saved := true |},
        setOpenAIApiKey true
          (if JS.truthy (dlg_apiKey d) then Some (dlg_apiKey d) else None)
          localStorage).

(** [handleClear]. *)
Definition handleClear (d : Dialog) (localStorage : gmap string string)
  : Dialog * gmap string string :=
  ({| dlg_apiKey := ""; dlg_hasKey := false; dlg_error := None; dlg_saved := true |},
   setOpenAIApiKey true None localStorage).

(** A stored key that is absent or has the accepted format. *)
Definition stored_key_ok (localStorage : gmap string string) : Prop :=
  match getOpenAIApiKey true localStorage with
  | Some k => isValidApiKeyFormat k = true
  | None => True
  end.

End SettingsStore.

(** ** The hash as plain unsigned 32-bit arithmetic *)
Module Djb2.

(** Multiply by 33, exclusive-or the character code, keep 32 bits. *)
Definition hash_u32 (codes : list Z) : Z :=
  fold_left (fun h code => (Z.lxor (h * 33) code) mod 2 ^ 32)%Z codes 5381%Z.

End Djb2.

(** ** Requests and the identity ([ui/lib/api.ts]) *)
Module ApiSession.

Section Session.
Context {number : Type}.
Variable numToString : number -> string.
Variable numTruthy : number -> bool.
Variable numOfZ : Z -> number.

(** The start of [fetchWithClientId] and of [streamQuery] in the browser:
    the identity is read (and cached), the key is read, the headers are
    put together (the callers of [fetchWithClientId] pass no headers of
    their own).  The result is the headers and [localStorage]
    afterwards. *)
Definition prepare_request (window : ClientId.Device (number := number))
  (url : string) (localStorage : gmap string string)
  : gmap string string * gmap string string :=
  let '(clientId, localStorage) :=
    ClientId.getClientId numToString numTruthy numOfZ (Some window) localStorage in
  let openaiApiKey := Settings.getOpenAIApiKey true localStorage in
  (Api.request_headers clientId openaiApiKey url, localStorage).

(** What both functions do with the response headers:
    [newClientId = response.headers.get("X-Client-ID")] and
    [if (newClientId) setClientId(newClientId)]. *)
Definition receive_response (window : ClientId.Device (number := number))
  (newClientId : option string) (localStorage : gmap string string)
  : gmap string string :=
  if JS.truthy_opt newClientId
  then ClientId.setClientId (Some window) (default "" newClientId) localStorage
  else localStorage.

End Session.

End ApiSession.

(** ** Bodies of blocks *)
Module Blocks.
Import Api.

(** A block that a blank line can close: it holds no two line feeds in a
    row and does not end with a line feed. *)
Fixpoint closed_block (b : string) : bool :=
  match b with
  | EmptyString => true
  | String c rest =>
      match rest with
      | EmptyString => negb (is_nl c)
      | String c2 _ => negb (is_nl c && is_nl c2) && closed_block rest
      end
  end.

(** Every block followed by a blank line. *)
Fixpoint blocks_text (blocks : list string) : string :=
  match blocks with
  | [] => EmptyString
  | b :: more => b +:+ BLANK_LINE +:+ blocks_text more
  end.

(** A body delivered as the given chunks and then finished as [final]
    says. *)
Fixpoint delivered (chunks : list string) (final : Source) : Source :=
  match chunks with
  | [] => final
  | text :: more => Chunk text (delivered more final)
  end.

(** The line feed. *)
Definition LF : string := String (ascii_of_nat 10) EmptyString.

End Blocks.

(** ** Reading the observers' calls and the events *)
Module Observed.
Import StreamingQuery.

(** The fragments passed to [onToken], put together. *)
Fixpoint tokens_of (observed : list Callback) : string :=
  match observed with
  | [] => EmptyString
  | OnToken token :: more => token +:+ tokens_of more
  | _ :: more => tokens_of more
  end.

(** A loop that has seen nothing, on a fresh hook. *)
Definition fresh : Loop := {| hook := initial; result := None; observed := [] |}.

(** The observer calls the loop body makes for one event. *)
Definition calls_for (event : StreamEvent) : list Callback :=
  observed (on_event event fresh).

(** The result the loop body builds for one event, if it builds one. *)
Definition result_for (event : StreamEvent) : option StreamResult :=
  result (on_event event fresh).

(** The next read settles the call: it has not ended and its body has no
    chunk left. *)
Definition settles_next (c : Call) : bool :=
  match call_ending c, call_source c with
  | None, EndOfData => true
  | None, ReadFails _ => true
  | _, _ => false
  end.

Definition is_execute (a : Action) : bool :=
  match a with ExecuteQuery _ => true | _ => false end.

(** The ref is empty or holds the controller made last, which is not
    aborted; there is one controller for each call. *)
Definition ref_is_latest (w : World) : Prop :=
  length (controllers (the_hook w)) = length (calls w)
  /\ match abortControllerRef (the_hook w) with
     | Some p =>
         S p = length (controllers (the_hook w))
         /\ controllers (the_hook w) !! p = Some false
     | None => True
     end.

End Observed.

(** ** Reading a persisted history *)
Module Reconcile.
Import Conversation.

(** The record has the role of a user or of the assistant. *)
Definition is_chat_role (m : ApiMessage) : bool :=
  match role_of (api_role m) with
  | Some _ => true
  | None => false
  end.

(** The record is shown as an assistant message: the role is the
    assistant's and the content is not blank. *)
Definition shown_assistant (m : ApiMessage) : bool :=
  String.eqb (api_role m) "assistant" && JS.truthy (JS.trim (api_content m)).

(** The query a record contributes to the pending slot, if any. *)
Definition captured (m : ApiMessage) : option string :=
  if is_chat_role m && JS.truthy_opt (first_query m) then first_query m else None.

(** The latest query captured in a stretch of history. *)
Definition latest_query (history : list ApiMessage) : option string :=
  last (omap captured history).

(** What a shown message keeps of its record. *)
Definition kept (m : Message) : string * string := (msg_id m, msg_content m).
Definition offered (m : ApiMessage) : string * string := (api_id m, api_content m).

(** A history with a query before a user's message and a tool record. *)
Definition sample_history : list ApiMessage :=
  [ {| api_id := "1"; api_role := "user"; api_content := "Q1";
       api_tool_calls := None |};
    {| api_id := "2"; api_role := "assistant"; api_content := "";
       api_tool_calls := Some [ {| tc_name := None; tc_args := Some (Some "SELECT 1") |} ] |};
    {| api_id := "3"; api_role := "tool"; api_content := "rows";
       api_tool_calls := Some [ {| tc_name := None; tc_args := Some (Some "SELECT 9") |} ] |};
    {| api_id := "4"; api_role := "user"; api_content := "and?";
       api_tool_calls := None |} ].

Definition sample_answer : ApiMessage :=
  {| api_id := "5"; api_role := "assistant"; api_content := "Answer";
     api_tool_calls := None |}.

End Reconcile.

(** ** The rest of [useConversation] *)
Module ConversationHook.

Record ConversationSummary := {
  cs_id : string;
  cs_title : string;
  cs_created_at : string;
  cs_updated_at : string
}.

Record State := {
  conversations : list ConversationSummary;
  currentConversationId : option string;
  messages : list Message;
  isLoading : bool;
  error : option string
}.


(** [selectConversation(id)], given what [getConversation(id)] comes to:
    the messages of the conversation, or the message of the error
    thrown. *)
Definition selectConversation (id : string) (fetched : string + list ApiMessage)
  (st : State) : State :=
  match fetched with
  | inr detail_messages =>
      {| conversations := conversations st; currentConversationId := Some id;
         messages := Conversation.transformMessages detail_messages;
         isLoading := false; error := None |}
  | inl message =>
      {| conversations := conversations st;
         currentConversationId := currentConversationId st;
         messages := messages st; isLoading := false; error := Some message |}
  end.







End ConversationHook.

(** ** [handleSubmit] of the chat interface *)
Module Chat.
Import StreamingQuery.

(** The state the chat interface shows and passes up: the messages and
    the conversation id of the page, its own error and input, the number
    of times it asked for the list of conversations to be loaded again,
    and the reasons it opened the settings dialog with. *)
Record State := {
  messages : list Message;
  error : option string;
  input : string;
  conversationId : option string;
  created : nat;
  settings_opened : list string
}.

Definition setMessages (ms : list Message) (st : State) : State :=
  {| messages := ms; error := error st; input := input st;
     conversationId := conversationId st; created := created st;
     settings_opened := settings_opened st |}.

Definition setChatError (e : option string) (st : State) : State :=
  {| messages := messages st; error := e; input := input st;
     conversationId := conversationId st; created := created st;
     settings_opened := settings_opened st |}.

(** The updater the three observers share: the last message is replaced
    when its id is the placeholder's.  [None] is the [TypeError] of
    reading [lastMsg.id] in an empty list. *)
Definition update_last (assistantMessageId : string) (f : Message -> Message)
  (prev : list Message) : option (list Message) :=
  match last prev with
  | None => None
  | Some lastMsg =>
      if String.eqb (msg_id lastMsg) assistantMessageId
      then Some (removelast prev ++ [f lastMsg])
      else Some prev
  end.

Definition is_credential_code (code : option string) : bool :=
  match code with
  | Some c => String.eqb c "rate_limit" || String.eqb c "insufficient_quota"
              || String.eqb c "invalid_api_key"
  | None => false
  end.

(** One observer call, as [handleSubmit] has set the observers up;
    [submitted] is the conversation id the interface had when the question
    was submitted. *)
Definition observe (assistantMessageId : string) (newMessages : list Message)
  (submitted : option string) (cb : Callback) (st : State) : option State :=
  match cb with
  | OnStage _ _ => Some st
  | OnToken token =>
      ms ← update_last assistantMessageId
              (fun lastMsg =>
                 {| msg_id := msg_id lastMsg; msg_role := msg_role lastMsg;
                    msg_content := msg_content lastMsg +:+ token;
                    msg_sqlQuery := msg_sqlQuery lastMsg |})
              (messages st);
      Some (setMessages ms st)
  | OnSql query =>
      ms ← update_last assistantMessageId
              (fun lastMsg =>
                 {| msg_id := msg_id lastMsg; msg_role := msg_role lastMsg;
                    msg_content := msg_content lastMsg;
                    msg_sqlQuery := Some query |})
              (messages st);
      Some (setMessages ms st)
  | OnComplete streamResult =>
      let st :=
        if negb (JS.truthy_opt submitted) && JS.truthy (StreamingQuery.conversationId streamResult)
        then {| messages := messages st; error := error st; input := input st;
                conversationId := Some (StreamingQuery.conversationId streamResult);
                created := S (created st);
                settings_opened := settings_opened st |}
        else st in
      ms ← update_last assistantMessageId
              (fun lastMsg =>
                 {| msg_id := msg_id lastMsg; msg_role := msg_role lastMsg;
                    msg_content :=
                      if JS.truthy (answer streamResult) then answer streamResult
                      else msg_content lastMsg;
                    msg_sqlQuery := sqlQuery streamResult |})
              (messages st);
      Some (setMessages ms st)
  | OnError errorMsg errorCode =>
      let st := setMessages newMessages (setChatError (Some errorMsg) st) in
      Some (if is_credential_code errorCode
            then {| messages := messages st; error := error st; input := input st;
                    conversationId := conversationId st; created := created st;
                    settings_opened :=
                      settings_opened st ++ [default "" errorCode] |}
            else st)
  end.

Fixpoint observe_all (assistantMessageId : string) (newMessages : list Message)
  (submitted : option string) (cbs : list Callback) (st : State) : option State :=
  match cbs with
  | [] => Some st
  | cb :: more =>
      st' ← observe assistantMessageId newMessages submitted cb st;
      observe_all assistantMessageId newMessages submitted more st'
  end.

Definition GENERIC_FAILURE : string := "Failed to get a response. Please try again.".

Section Submit.
Context `{parser : JsonParser}.

(** [handleSubmit] with a call of [executeQuery] that nothing interrupts:
    [userId] and [assistantId] are what [Date.now().toString()] and
    [(Date.now() + 1).toString()] give, [body] is what the server answers.
    The [error] and [conversationId] the function reads are those of the
    state at the submission.  The result is the state of the interface
    and of the hook afterwards; [None] is an exception in an updater. *)
Definition handleSubmit (userId assistantId : string) (body : Source)
  (h : HookState) (st : State) : option (State * HookState) :=
  if negb (JS.truthy (JS.trim (input st))) || isStreaming h then Some (st, h)
  else
    let userMessage :=
      {| msg_id := userId; msg_role := user; msg_content := JS.trim (input st);
         msg_sqlQuery := None |} in
    let newMessages := messages st ++ [userMessage] in
    let assistantMessage :=
      {| msg_id := assistantId; msg_role := assistant; msg_content := "";
         msg_sqlQuery := None |} in
    let st1 :=
      {| messages := newMessages ++ [assistantMessage]; error := None; input := "";
         conversationId := conversationId st; created := created st;
         settings_opened := settings_opened st |} in
    let '(h', observed, ending) := executeQuery body h in
    st2 ← observe_all assistantId newMessages (conversationId st) observed st1;
    match returned ending with
    | Some _ => Some (st2, h')
    | None =>
        if negb (JS.truthy_opt (error st))
        then Some (setMessages newMessages (setChatError (Some GENERIC_FAILURE) st2), h')
        else Some (st2, h')
    end.

End Submit.

(** The events before the last that only build up the answer. *)
Definition builds_answer (event : StreamEvent) : bool :=
  String.eqb (ev_type event) "stage" || String.eqb (ev_type event) "token"
  || String.eqb (ev_type event) "sql".

End Chat.

(** ** The export menu: CSV and HTML *)
Module ExportMenu.

Definition QUOTE : ascii := ascii_of_nat 34.

(** [s.replace(/c/g, by)] for a single character [c]. *)
Fixpoint replace_all (c : ascii) (by_ : string) (s : string) : string :=
  match s with
  | EmptyString => EmptyString
  | String x s' =>
      if Ascii.eqb x c then by_ +:+ replace_all c by_ s'
      else String x (replace_all c by_ s')
  end.

(** A quoted CSV cell, as [messagesToCsv] writes the content and the query:
    the text with every double quote doubled, between two double quotes. *)
Definition csv_cell (s : string) : string :=
  String QUOTE (replace_all QUOTE (String QUOTE (String QUOTE EmptyString)) s
                +:+ String QUOTE EmptyString).

(** One row of [messagesToCsv]. *)
Definition csv_row (msg : Message) : list string :=
  [ match msg_role msg with user => "User" | assistant => "Assistant" end;
    csv_cell (msg_content msg);
    if JS.truthy_opt (msg_sqlQuery msg)
    then csv_cell (default "" (msg_sqlQuery msg)) else "" ].

(** [messagesToCsv]. *)
Definition messagesToCsv (messages : list Message) : string :=
  JS.join Blocks.LF
    (JS.join "," ["Role"; "Content"; "SQL Query"]
     :: map (fun msg => JS.join "," (csv_row msg)) messages).

(** Reading a quoted cell at the head of a text the way a CSV reader does:
    after the opening quote, two quotes stand for one, and one quote ends
    the cell.  The result is the cell's content and the text after the
    cell; [None] when the text does not begin with a quoted cell. *)
Fixpoint read_quoted_body (s : string) : option (string * string) :=
  match s with
  | EmptyString => None
  | String x s' =>
      if Ascii.eqb x QUOTE then
        match s' with
        | String y s'' =>
            if Ascii.eqb y QUOTE then
              match read_quoted_body s'' with
              | Some (content, rest) => Some (String QUOTE content, rest)
              | None => None
              end
            else Some (EmptyString, s')
        | EmptyString => Some (EmptyString, EmptyString)
        end
      else
        match read_quoted_body s' with
        | Some (content, rest) => Some (String x content, rest)
        | None => None
        end
  end.

Definition read_quoted_cell (s : string) : option (string * string) :=
  match s with
  | String x s' => if Ascii.eqb x QUOTE then read_quoted_body s' else None
  | EmptyString => None
  end.

Definition starts_with_quote (s : string) : bool :=
  match s with
  | String x _ => Ascii.eqb x QUOTE
  | EmptyString => false
  end.

(** The escaping [messagesToPdfHtml] applies to a SQL query:
    [.replace(/&/g, "&amp;").replace(/</g, "&lt;").replace(/>/g, "&gt;")]. *)
Definition escape_html (s : string) : string :=
  replace_all ">" "&gt;" (replace_all "<" "&lt;" (replace_all "&" "&amp;" s)).

(** The escaping it applies to a message's content: the same, then
    [.replace(/\n/g, "<br>")]. *)
Definition content_html (s : string) : string :=
  replace_all (ascii_of_nat 10) "<br>" (escape_html s).

(** No angle bracket at all. *)
Fixpoint no_angle (s : string) : bool :=
  match s with
  | EmptyString => true
  | String x s' => negb (Ascii.eqb x "<") && negb (Ascii.eqb x ">") && no_angle s'
  end.

(** The only angle brackets are those of [<br>] tags. *)
Fixpoint only_br_tags (s : string) : bool :=
  match s with
  | EmptyString => true
  | String x s' =>
      if Ascii.eqb x "<" then
        match s' with
        | String "b" (String "r" (String ">" rest)) => only_br_tags rest
        | _ => false
        end
      else negb (Ascii.eqb x ">") && only_br_tags s'
  end.

(** What the escaping makes of one character. *)
Definition escaped_char (escape_lf : bool) (x : ascii) : string :=
  if Ascii.eqb x "&" then "&amp;"
  else if Ascii.eqb x "<" then "&lt;"
  else if Ascii.eqb x ">" then "&gt;"
  else if escape_lf && Ascii.eqb x (ascii_of_nat 10) then "<br>"
  else String x EmptyString.

Fixpoint escaped (escape_lf : bool) (s : string) : string :=
  match s with
  | EmptyString => EmptyString
  | String x s' => escaped_char escape_lf x +:+ escaped escape_lf s'
  end.

End ExportMenu.

(** * Theorems *)

#[local] Arguments String.append !_ _ / : simpl nomatch.

(** ** Strings *)
Module StringFacts.

Lemma length_append (a b : string) :
  String.length (a +:+ b) = String.length a + String.length b.
Proof. induction a as [|c a IH]; simpl; [reflexivity | now rewrite IH]. Qed.

Lemma append_empty_r (a : string) : a +:+ "" = a.
Proof. induction a as [|c a IH]; simpl; [reflexivity | now rewrite IH]. Qed.

Lemma append_assoc (a b c : string) : (a +:+ b) +:+ c = a +:+ b +:+ c.
Proof. induction a as [|x a IH]; simpl; [reflexivity | now rewrite IH]. Qed.

Lemma length_repeat_char c n : String.length (JS.repeat_char c n) = n.
Proof. induction n as [|n IH]; simpl; [reflexivity | now rewrite IH]. Qed.

End StringFacts.

(** ** The device identity *)
Module ClientIdFacts.
Import ClientId StringFacts.

Lemma hashString_range (s : string) : (0 <= hashString s < 2 ^ 32)%Z.
Proof. unfold hashString, JS.toUint32. apply Z.mod_pos_bound. lia. Qed.

Lemma digit_char_hex (d : Z) : (0 <= d < 16)%Z -> is_hex_digit (JS.digit_char d) = true.
Proof.
  intros Hd.
  assert (Hcases : In d [0; 1; 2; 3; 4; 5; 6; 7; 8; 9; 10; 11; 12; 13; 14; 15]%Z).
  { simpl. lia. }
  simpl in Hcases.
  repeat (destruct Hcases as [<- | Hcases]; [reflexivity |]).
  contradiction.
Qed.

Lemma all_hex_append (a b : string) :
  all_hex (a +:+ b) = all_hex a && all_hex b.
Proof.
  induction a as [|c a IH]; simpl; [reflexivity |].
  rewrite IH. now rewrite andb_assoc.
Qed.

Lemma digits_all_hex (fuel : nat) (n : Z) :
  (0 <= n)%Z -> all_hex (JS.digits fuel 16 n) = true.
Proof.
  revert n. induction fuel as [|fuel IH]; intros n Hn; simpl.
  - rewrite digit_char_hex; [reflexivity | apply Z.mod_pos_bound; lia].
  - destruct (Z.ltb_spec n 16).
    + simpl. rewrite digit_char_hex; [reflexivity | lia].
    + rewrite all_hex_append, IH by (apply Z.div_pos; lia).
      simpl. rewrite digit_char_hex; [reflexivity | apply Z.mod_pos_bound; lia].
Qed.

Lemma digits_length_le (fuel k : nat) (n : Z) :
  (0 <= n < 16 ^ Z.of_nat (S k))%Z ->
  String.length (JS.digits fuel 16 n) <= S k.
Proof.
  revert k n. induction fuel as [|fuel IH]; intros k n Hn; simpl.
  - lia.
  - destruct (Z.ltb_spec n 16); simpl; [lia |].
    rewrite length_append. simpl.
    destruct k as [|k].
    + change (16 ^ Z.of_nat 1)%Z with 16%Z in Hn. lia.
    + assert (Hdiv : (0 <= n / 16 < 16 ^ Z.of_nat (S k))%Z).
      { split; [apply Z.div_pos; lia |].
        apply Z.div_lt_upper_bound; [lia |].
        replace (Z.of_nat (S (S k))) with (Z.succ (Z.of_nat (S k))) in Hn by lia.
        rewrite Z.pow_succ_r in Hn by lia. lia. }
      specialize (IH k (n / 16)%Z Hdiv). lia.
Qed.

Lemma all_hex_repeat_zero n : all_hex (JS.repeat_char "0" n) = true.
Proof. induction n as [|n IH]; simpl; [reflexivity | exact IH]. Qed.

(** A hash printed by [hex8] is exactly eight hexadecimal digits. *)
Lemma hex8_length (h : Z) : (0 <= h < 2 ^ 32)%Z -> String.length (hex8 h) = 8.
Proof.
  intros Hh. unfold hex8, JS.padStart, JS.toString.
  destruct (Z.ltb_spec h 0); [lia |].
  rewrite length_append, length_repeat_char.
  pose proof (digits_length_le (Z.to_nat (Z.log2 h)) 7 h) as Hlen.
  change (16 ^ Z.of_nat 8)%Z with (2 ^ 32)%Z in Hlen.
  specialize (Hlen Hh). lia.
Qed.

Lemma hex8_all_hex (h : Z) : (0 <= h)%Z -> all_hex (hex8 h) = true.
Proof.
  intros Hh. unfold hex8, JS.padStart, JS.toString.
  destruct (Z.ltb_spec h 0); [lia |].
  now rewrite all_hex_append, all_hex_repeat_zero, digits_all_hex.
Qed.

(** A string of eight hexadecimal digits, character by character. *)
Lemma eight_hex_digits (s : string) :
  String.length s = 8 -> all_hex s = true ->
  exists c1 c2 c3 c4 c5 c6 c7 c8 : ascii,
    s = String c1 (String c2 (String c3 (String c4
          (String c5 (String c6 (String c7 (String c8 EmptyString)))))))
    /\ is_hex_digit c1 = true /\ is_hex_digit c2 = true
    /\ is_hex_digit c3 = true /\ is_hex_digit c4 = true
    /\ is_hex_digit c5 = true /\ is_hex_digit c6 = true
    /\ is_hex_digit c7 = true /\ is_hex_digit c8 = true.
Proof.
  intros Hlen Hhex.
  do 8 (destruct s as [|? s]; [discriminate Hlen |]).
  destruct s; [| discriminate Hlen].
  simpl in Hhex.
  repeat (apply andb_prop in Hhex; destruct Hhex as [? Hhex]).
  do 8 eexists. split; [reflexivity |]. repeat split; assumption.
Qed.

Lemma hex8_digits (h : Z) :
  (0 <= h < 2 ^ 32)%Z ->
  exists c1 c2 c3 c4 c5 c6 c7 c8 : ascii,
    hex8 h = String c1 (String c2 (String c3 (String c4
          (String c5 (String c6 (String c7 (String c8 EmptyString)))))))
    /\ is_hex_digit c1 = true /\ is_hex_digit c2 = true
    /\ is_hex_digit c3 = true /\ is_hex_digit c4 = true
    /\ is_hex_digit c5 = true /\ is_hex_digit c6 = true
    /\ is_hex_digit c7 = true /\ is_hex_digit c8 = true.
Proof.
  intros Hh. apply eight_hex_digits; [now apply hex8_length | apply hex8_all_hex; lia].
Qed.

(** C8: for every fingerprint the identifier is five groups of hexadecimal
    digits between hyphens and its third group begins with the version
    digit 4; the groups hold 8, 4, 4, 4 and 8 digits, 32 characters in all,
    so the identifier never has the 8-4-4-4-12 grouping. *)
Theorem identifier_grouping (fingerprint : string) :
  (exists g1 g2 g3 g4 g5 : string,
      formatFingerprint fingerprint
      = g1 +:+ "-" +:+ g2 +:+ "-" +:+ g3 +:+ "-" +:+ g4 +:+ "-" +:+ g5
      /\ String.length g1 = 8 /\ String.length g2 = 4 /\ String.length g3 = 4
      /\ String.length g4 = 4 /\ String.length g5 = 8
      /\ all_hex g1 = true /\ all_hex g2 = true /\ all_hex g3 = true
      /\ all_hex g4 = true /\ all_hex g5 = true
      /\ JS.take 1 g3 = "4")
  /\ String.length (formatFingerprint fingerprint) = 32
  /\ uuid_shaped (formatFingerprint fingerprint) = false.
Proof.
  unfold formatFingerprint.
  destruct (hex8_digits _ (hashString_range fingerprint))
    as (a1 & a2 & a3 & a4 & a5 & a6 & a7 & a8 & -> & Ha).
  destruct (hex8_digits _ (hashString_range (JS.reverse fingerprint)))
    as (b1 & b2 & b3 & b4 & b5 & b6 & b7 & b8 & -> & Hb).
  destruct (hex8_digits _ (hashString_range
              (JS.toString 10 (hashString fingerprint)
               +:+ JS.toString 10 (hashString (JS.reverse fingerprint)))))
    as (c1 & c2 & c3 & c4 & c5 & c6 & c7 & c8 & -> & Hc).
  destruct (hex8_digits _ (hashString_range (fingerprint +:+ "salt")))
    as (d1 & d2 & d3 & d4 & d5 & d6 & d7 & d8 & -> & Hd).
  destruct Ha as (? & ? & ? & ? & ? & ? & ? & ?).
  destruct Hb as (? & ? & ? & ? & ? & ? & ? & ?).
  destruct Hc as (? & ? & ? & ? & ? & ? & ? & ?).
  destruct Hd as (? & ? & ? & ? & ? & ? & ? & ?).
  split; [| split].
  - eexists (String a1 (String a2 (String a3 (String a4
              (String a5 (String a6 (String a7 (String a8 ""))))))));
      eexists (String b1 (String b2 (String b3 (String b4 ""))));
      eexists (String "4" (String b6 (String b7 (String b8 ""))));
      eexists (String c1 (String c2 (String c3 (String c4 ""))));
      eexists (String c5 (String c6 (String c7 (String c8
                (String d1 (String d2 (String d3 (String d4 "")))))))).
    split; [reflexivity |].
    repeat (split; [reflexivity |]).
    unfold all_hex.
    repeat match goal with
           | Hx : is_hex_digit _ = true |- _ => rewrite Hx; clear Hx
           end.
    repeat split; reflexivity.
  - reflexivity.
  - unfold uuid_shaped. simpl.
    repeat match goal with
           | Hx : is_hex_digit _ = true |- _ => rewrite Hx; clear Hx
           end.
    reflexivity.
Qed.

(** The identifier of one concrete fingerprint, for reference. *)
Example identifier_of_sample_device :
  formatFingerprint "1920x1080|24|24|1|UTC|en-US|en-US,en|Linux x86_64|8|8"
  = "6bfaedbb-7106-43bb-301c-db26a709"
  /\ uuid_shaped "6bfaedbb-7106-43bb-301c-db26a709" = false
  /\ uuid_shaped "123e4567-e89b-42d3-a456-426614174000" = true.
Proof. vm_compute. repeat split. Qed.

Section Stability.
Context {number : Type}.
Variable numToString : number -> string.
Variable numTruthy : number -> bool.
Variable numOfZ : Z -> number.

#[local] Abbreviation getId := (getClientId numToString numTruthy numOfZ).
#[local] Abbreviation clearId := (clearClientId (number := number)).
#[local] Abbreviation fingerprintOf := (generateDeviceFingerprint numToString numTruthy numOfZ).

Lemma getClientId_after_clear (window : option (Device (number := number)))
  (localStorage : gmap string string) :
  fst (getId window (clearId window localStorage)) = fingerprintOf window.
Proof.
  unfold getClientId, clearClientId. destruct window as [d|]; [| reflexivity].
  now rewrite lookup_delete_eq.
Qed.

Lemma getClientId_twice (window : option (Device (number := number)))
  (localStorage : gmap string string) :
  let '(first, stored) := getId window localStorage in
  fst (getId window stored) = first.
Proof.
  unfold getClientId. destruct window as [d|]; [| reflexivity].
  destruct (localStorage !! CLIENT_ID_KEY) as [s|] eqn:Hs; simpl.
  - destruct (JS.truthy s) eqn:Ht; simpl.
    + now rewrite Hs; simpl; rewrite Ht.
    + destruct (JS.truthy (formatFingerprint _)) eqn:Hf; simpl.
      * now rewrite lookup_insert_eq; simpl; rewrite Hf.
      * now rewrite Hs; simpl; rewrite Ht.
  - destruct (JS.truthy (formatFingerprint _)) eqn:Hf; simpl.
    + now rewrite lookup_insert_eq; simpl; rewrite Hf.
    + now rewrite Hs.
Qed.

(** C9: with the device unchanged, [getClientId] called twice in a row
    returns the same value both times; and [getClientId] right after
    [clearClientId] returns the same value whenever that is done, whatever
    the storage held before each clearing. *)
Theorem getClientId_stable (window : option (Device (number := number))) :
  (forall localStorage : gmap string string,
      let '(first, stored) := getId window localStorage in
      fst (getId window stored) = first)
  /\ (forall earlier later : gmap string string,
         fst (getId window (clearId window earlier))
         = fst (getId window (clearId window later))).
Proof.
  split.
  - intros localStorage. apply getClientId_twice.
  - intros earlier later. now rewrite !getClientId_after_clear.
Qed.

End Stability.

End ClientIdFacts.

(** ** Conversation reconstruction *)

Module ConversationFacts.
Import Conversation.

Lemma first_query_keep_first m :
  first_query (keep_first_tool_call m) = first_query m.
Proof.
  unfold first_query, keep_first_tool_call; simpl.
  destruct (api_tool_calls m) as [[|tc rest]|]; reflexivity.
Qed.

Lemma transform_step_keep_first acc m :
  transform_step acc (keep_first_tool_call m) = transform_step acc m.
Proof.
  unfold transform_step. destruct acc as [msgs pending].
  rewrite first_query_keep_first. reflexivity.
Qed.

Lemma fold_transform_keep_first messages acc :
  fold_left transform_step (map keep_first_tool_call messages) acc
  = fold_left transform_step messages acc.
Proof.
  revert acc. induction messages as [|m rest IH]; intros acc; simpl.
  - reflexivity.
  - rewrite transform_step_keep_first. apply IH.
Qed.

(** C7: the persisted history [user "Q1"; assistant "" with a tool call
    whose query is "SELECT 1"; assistant "Answer"] is rebuilt as exactly
    two messages, the user's "Q1" without a query and the assistant's
    "Answer" carrying "SELECT 1"; the record without content emits
    nothing and its query is carried forward.  The ids and the tool's
    name are arbitrary. *)
Theorem reconstruct_carries_artifact_forward (i1 i2 i3 : string) (name : option string) :
  transformMessages
    [ {| api_id := i1; api_role := "user"; api_content := "Q1";
         api_tool_calls := None |};
      {| api_id := i2; api_role := "assistant"; api_content := "";
         api_tool_calls :=
           Some [ {| tc_name := name; tc_args := Some (Some "SELECT 1") |} ] |};
      {| api_id := i3; api_role := "assistant"; api_content := "Answer";
         api_tool_calls := None |} ]
  = [ {| msg_id := i1; msg_role := user; msg_content := "Q1";
         msg_sqlQuery := None |};
      {| msg_id := i3; msg_role := assistant; msg_content := "Answer";
         msg_sqlQuery := Some "SELECT 1" |} ].
Proof. reflexivity. Qed.

(** C10: only the first entry of a record's [tool_calls] is looked at.
    Rebuilding a history gives the same messages as rebuilding it with every
    record cut down to its first tool call; a record whose first
    entry has no query captures nothing, whatever the later entries
    hold; and what a record captures is the query of its first entry. *)
Theorem only_first_tool_call_inspected :
  (forall messages : list ApiMessage,
      transformMessages (map keep_first_tool_call messages)
      = transformMessages messages)
  /\ (forall (id role content : string) (name : option string)
             (later : list ToolCall),
         first_query
           {| api_id := id; api_role := role; api_content := content;
              api_tool_calls :=
                Some ({| tc_name := name; tc_args := Some None |} :: later) |}
         = None)
  /\ (forall (id role content : string) (tc : ToolCall) (later : list ToolCall),
         first_query
           {| api_id := id; api_role := role; api_content := content;
              api_tool_calls := Some (tc :: later) |}
         = match tc_args tc with Some q => q | None => None end).
Proof.
  split; [|split].
  - intros messages. unfold transformMessages.
    now rewrite fold_transform_keep_first.
  - reflexivity.
  - reflexivity.
Qed.

End ConversationFacts.

(** ** The frame decoder *)
Module DecoderFacts.
Import Api StringFacts.

(** Induction on a string two characters at a time, as [split_blank]
    reads it. *)
Lemma string_ind2 (P : string -> Prop) :
  P EmptyString ->
  (forall c, P (String c EmptyString)) ->
  (forall c c2 s, P s -> P (String c2 s) -> P (String c (String c2 s))) ->
  forall s, P s.
Proof.
  intros H0 H1 H2 s.
  enough (P s /\ forall c, P (String c s)) as [Hs _] by exact Hs.
  induction s as [|c2 s [IHs IHc]].
  - split; [exact H0 | exact H1].
  - split; [apply IHc |]. intros c. apply H2; [exact IHs | apply IHc].
Qed.

Lemma is_nl_eq (c : ascii) : is_nl c = true -> c = ascii_of_nat 10.
Proof.
  unfold is_nl. intros Hc. apply Nat.eqb_eq in Hc.
  rewrite <- (ascii_nat_embedding c). now rewrite Hc.
Qed.

Lemma split_blank_step (c c2 : ascii) (s : string) :
  is_nl c && is_nl c2 = false ->
  split_blank (String c (String c2 s)) = cons_head c (split_blank (String c2 s)).
Proof. intros Hnl. cbn [split_blank]. now rewrite Hnl. Qed.

Lemma split_blank_sep (c c2 : ascii) (s : string) :
  is_nl c && is_nl c2 = true ->
  split_blank (String c (String c2 s)) = EmptyString :: split_blank s.
Proof. intros Hnl. cbn [split_blank]. now rewrite Hnl. Qed.

Lemma split_blank_nonempty (s : string) : split_blank s <> [].
Proof.
  induction s as [| c | c c2 s IHs IHc] using string_ind2; try discriminate.
  destruct (is_nl c && is_nl c2) eqn:Hnl.
  - rewrite split_blank_sep by exact Hnl. discriminate.
  - rewrite split_blank_step by exact Hnl.
    destruct (split_blank (String c2 s)); [contradiction | discriminate].
Qed.

(** The buffer kept by [lines.pop() || ""] is the last piece. *)
Lemma or_str_last (p : string) : JS.or_str (Some p) "" = p.
Proof. now destruct p. Qed.

Lemma split_buffer_cons (p : string) (q : list string) :
  q <> [] ->
  removelast (p :: q) = p :: removelast q /\ last (p :: q) = last q.
Proof. destruct q; [contradiction |]. intros _. split; reflexivity. Qed.

(** Nothing is lost by splitting: the pieces joined by blank lines are the
    text. *)
Lemma join_split_blank (s : string) : JS.join BLANK_LINE (split_blank s) = s.
Proof.
  induction s as [| c | c c2 s IHs IHc] using string_ind2; try reflexivity.
  destruct (is_nl c && is_nl c2) eqn:Hnl.
  - rewrite split_blank_sep by exact Hnl.
    apply andb_prop in Hnl as [Hc Hc2].
    apply is_nl_eq in Hc, Hc2. subst c c2.
    pose proof (split_blank_nonempty s) as Hne.
    destruct (split_blank s) as [|p ps] eqn:Hs; [contradiction |].
    change (JS.join BLANK_LINE ("" :: p :: ps))
      with ("" +:+ BLANK_LINE +:+ JS.join BLANK_LINE (p :: ps)).
    now rewrite IHs.
  - rewrite split_blank_step by exact Hnl.
    pose proof (split_blank_nonempty (String c2 s)) as Hne.
    destruct (split_blank (String c2 s)) as [|p ps] eqn:Hs; [contradiction |].
    rewrite <- IHc. destruct ps; reflexivity.
Qed.

Lemma split_blank_single (s p : string) : split_blank s = [p] -> p = s.
Proof. intros Hs. rewrite <- (join_split_blank s), Hs. reflexivity. Qed.

(** Splitting a text that grows: the pieces closed so far stay, and the
    open piece is split again with what arrives. *)
Lemma split_blank_app (x y : string) :
  split_blank (x +:+ y)
  = removelast (split_blank x)
    ++ split_blank (JS.or_str (last (split_blank x)) "" +:+ y).
Proof.
  induction x as [| c | c c2 x IHx IHc] using string_ind2; try reflexivity.
  pose proof (split_blank_nonempty x) as Hx.
  pose proof (split_blank_nonempty (String c2 x)) as Hc2.
  destruct (is_nl c && is_nl c2) eqn:Hnl.
  - change (String c (String c2 x) +:+ y) with (String c (String c2 (x +:+ y))).
    rewrite !split_blank_sep by exact Hnl.
    destruct (split_buffer_cons "" _ Hx) as [-> ->].
    now rewrite IHx.
  - change (String c (String c2 x) +:+ y) with (String c (String c2 x +:+ y)).
    change (String c2 x +:+ y) with (String c2 (x +:+ y)) in *.
    rewrite !split_blank_step by exact Hnl.
    rewrite IHc.
    destruct (split_blank (String c2 x)) as [|p [|p' ps]] eqn:Hs; [contradiction | |].
    + apply split_blank_single in Hs. subst p.
      cbn [cons_head removelast last app]. rewrite !or_str_last.
      change (String c (String c2 x) +:+ y) with (String c (String c2 (x +:+ y))).
      change (String c2 x +:+ y) with (String c2 (x +:+ y)).
      now rewrite split_blank_step by exact Hnl.
    + reflexivity.
Qed.

Lemma split_buffer_app (x y : string) :
  lines_of (x +:+ y) = lines_of x ++ lines_of (buffer_of x +:+ y)
  /\ buffer_of (x +:+ y) = buffer_of (buffer_of x +:+ y).
Proof.
  unfold lines_of, buffer_of, split_buffer; simpl.
  rewrite split_blank_app.
  pose proof (split_blank_nonempty (JS.or_str (last (split_blank x)) "" +:+ y)) as Hne.
  split.
  - now apply removelast_app.
  - rewrite last_app.
    destruct (last (split_blank (JS.or_str (last (split_blank x)) "" +:+ y))) eqn:Hl;
      [reflexivity |].
    now apply last_None in Hl.
Qed.

Section WithParser.
Context `{parser : JsonParser}.

Lemma decode_chunk (buffer text : string) (rest : Source) :
  decode buffer (Chunk text rest)
  = (parse_lines (lines_of (buffer +:+ text))
       ++ fst (decode (buffer_of (buffer +:+ text)) rest),
     snd (decode (buffer_of (buffer +:+ text)) rest)).
Proof.
  cbn [decode]. unfold process_chunk, lines_of, buffer_of.
  destruct (split_buffer (buffer +:+ text)) as [lines kept]; simpl.
  now destruct (decode kept rest).
Qed.

(** The events of a body depend on the text only, not on where the reads
    cut it. *)
Lemma decode_events (src : Source) (x : string) :
  parse_lines (lines_of x) ++ fst (decode (buffer_of x) src)
  = parse_lines (lines_of (x +:+ text_of src))
  /\ snd (decode (buffer_of x) src) = finish_of src.
Proof.
  revert x. induction src as [text rest IH | | message]; intros x.
  - rewrite decode_chunk. cbn [fst snd text_of finish_of].
    destruct (split_buffer_app x text) as [Hlines Hbuf].
    rewrite <- Hbuf. destruct (IH (x +:+ text)) as [IHe IHf].
    split; [| exact IHf].
    rewrite <- append_assoc, <- IHe, Hlines.
    unfold parse_lines. now rewrite omap_app, app_assoc.
  - cbn [decode fst snd text_of finish_of]. now rewrite app_nil_r, append_empty_r.
  - cbn [decode fst snd text_of finish_of]. now rewrite app_nil_r, append_empty_r.
Qed.

Lemma streamQuery_events_text (src : Source) :
  streamQuery_events src = (parse_lines (lines_of (text_of src)), finish_of src).
Proof.
  unfold streamQuery_events.
  destruct (decode_events src "") as [He Hf].
  change (buffer_of "") with "" in *. change (lines_of "") with (@nil string) in He.
  cbn [parse_lines omap app] in He. change ("" +:+ text_of src) with (text_of src) in He.
  destruct (decode "" src) as [events finish]; simpl in *. now subst.
Qed.

Lemma text_of_chunked (chunks : list string) : text_of (chunked chunks) = whole chunks.
Proof. induction chunks as [|t more IH]; simpl; [reflexivity | now rewrite IH]. Qed.

Lemma finish_of_chunked (chunks : list string) : finish_of (chunked chunks) = Completed.
Proof. induction chunks as [|t more IH]; simpl; [reflexivity | exact IH]. Qed.

(** C5: however the text of the body is cut into chunks, the decoder
    yields the events it yields when the whole text comes in one chunk, in
    the same order and with the same ending; and after every read the
    closed pieces and the kept buffer, joined by blank lines, are the
    buffer and the text read, so that the open frame is kept whole for the
    next read. *)
Theorem chunk_boundary_independence (chunks : list string) :
  streamQuery_events (chunked chunks) = streamQuery_events (chunked [whole chunks])
  /\ (forall buffer text : string,
         let '(lines, kept) := split_buffer (buffer +:+ text) in
         JS.join BLANK_LINE (lines ++ [kept]) = buffer +:+ text
         /\ process_chunk buffer text = (parse_lines lines, kept)).
Proof.
  split.
  - rewrite !streamQuery_events_text, !text_of_chunked, !finish_of_chunked.
    cbn [whole]. now rewrite append_empty_r.
  - intros buffer text. unfold process_chunk.
    destruct (split_buffer (buffer +:+ text)) as [lines kept] eqn:Hsplit.
    split; [| reflexivity].
    unfold split_buffer in Hsplit. injection Hsplit as <- <-.
    pose proof (split_blank_nonempty (buffer +:+ text)) as Hne.
    rewrite <- (join_split_blank (buffer +:+ text)) at 3.
    f_equal.
    destruct (last (split_blank (buffer +:+ text))) as [p|] eqn:Hlast.
    + rewrite or_str_last. apply last_Some in Hlast as [l' Hl'].
      rewrite Hl'. now rewrite removelast_last.
    + now apply last_None in Hlast.
Qed.

(** A frame on one line is cut off whole at its blank line. *)
Lemma split_blank_line (f rest : string) :
  one_line f = true ->
  split_blank (f +:+ BLANK_LINE +:+ rest) = f :: split_blank rest.
Proof.
  induction f as [|c f IH]; intros Hf.
  - reflexivity.
  - simpl in Hf. apply andb_prop in Hf as [Hc Hf].
    apply negb_true_iff in Hc.
    specialize (IH Hf).
    destruct f as [|c2 f].
    + change (String c "" +:+ BLANK_LINE +:+ rest)
        with (String c (String (ascii_of_nat 10) (String (ascii_of_nat 10) rest))).
      rewrite split_blank_step by now rewrite Hc.
      change (split_blank (String (ascii_of_nat 10) (String (ascii_of_nat 10) rest)))
        with ("" :: split_blank rest).
      reflexivity.
    + change (String c (String c2 f) +:+ BLANK_LINE +:+ rest)
        with (String c (String c2 (f +:+ BLANK_LINE +:+ rest))).
      rewrite split_blank_step by now rewrite Hc.
      change (String c2 (f +:+ BLANK_LINE +:+ rest))
        with (String c2 f +:+ BLANK_LINE +:+ rest).
      now rewrite IH.
Qed.

Lemma split_blank_frames (payloads : list string) :
  Forall (fun p => one_line p = true) payloads ->
  split_blank (frames payloads) = map (fun p => "data: " +:+ p) payloads ++ [""].
Proof.
  induction 1 as [|p more Hp Hmore IH]; [reflexivity |].
  cbn [frames map app]. unfold frame.
  replace (("data: " +:+ p +:+ BLANK_LINE) +:+ frames more)
    with (("data: " +:+ p) +:+ BLANK_LINE +:+ frames more).
  - rewrite split_blank_line by exact Hp. now rewrite IH.
  - now rewrite <- !append_assoc.
Qed.

Lemma parse_line_frame (p : string) : parse_line ("data: " +:+ p) = JSON_parse p.
Proof. unfold parse_line, JS.startsWith. simpl. now destruct p. Qed.

Lemma parse_lines_frames (payloads : list string) :
  parse_lines (map (fun p => "data: " +:+ p) payloads) = omap JSON_parse payloads.
Proof.
  unfold parse_lines.
  induction payloads as [|p more IH]; [reflexivity |].
  change (match parse_line ("data: " +:+ p) with
          | Some e => e :: omap parse_line (map (fun p => "data: " +:+ p) more)
          | None => omap parse_line (map (fun p => "data: " +:+ p) more)
          end
          = match JSON_parse p with
            | Some e => e :: omap JSON_parse more
            | None => omap JSON_parse more
            end).
  now rewrite parse_line_frame, IH.
Qed.

(** The events of a body made of one-line frames: the payloads that parse,
    in order. *)
Lemma decode_frames (payloads chunks : list string) :
  Forall (fun p => one_line p = true) payloads ->
  whole chunks = frames payloads ->
  streamQuery_events (chunked chunks) = (omap JSON_parse payloads, Completed).
Proof.
  intros Hlines Hwhole.
  rewrite streamQuery_events_text, text_of_chunked, finish_of_chunked, Hwhole.
  unfold lines_of, split_buffer. cbn [fst].
  rewrite split_blank_frames by exact Hlines.
  now rewrite removelast_last, parse_lines_frames.
Qed.

(** C6: a frame whose payload line does not parse is skipped; the decoder
    goes on to the end of the body without an error, and the frames before
    and after it are delivered in order, however the reads cut the body. *)
Theorem malformed_frame_skipped (before after chunks : list string) (bad : string) :
  Forall (fun p => one_line p = true) (before ++ bad :: after) ->
  JSON_parse bad = None ->
  whole chunks = frames (before ++ bad :: after) ->
  streamQuery_events (chunked chunks)
  = (omap JSON_parse before ++ omap JSON_parse after, Completed).
Proof.
  intros Hlines Hbad Hwhole.
  rewrite (decode_frames _ _ Hlines Hwhole), omap_app.
  change (omap JSON_parse (bad :: after))
    with (match JSON_parse bad with
          | Some e => e :: omap JSON_parse after
          | None => omap JSON_parse after
          end).
  now rewrite Hbad.
Qed.

End WithParser.

Import Examples.

(** C6 at a concrete body: a token frame, a frame cut short, a [done]
    frame, read in two chunks that cut the first frame. *)
Lemma malformed_frame_skipped_witness :
  let before := [token_payload "Hello "] in
  let after := [done_payload "c1" ""] in
  let text := frames (before ++ malformed_payload :: after) in
  let chunks := [JS.take 20 text; JS.slice_from 20 text] in
  streamQuery_events (parser := sample_parser) (chunked chunks)
  = (omap (JSON_parse (JsonParser := sample_parser)) before
       ++ omap (JSON_parse (JsonParser := sample_parser)) after,
     Completed).
Proof.
  apply (malformed_frame_skipped (parser := sample_parser)
           [token_payload "Hello "] [done_payload "c1" ""]
           [JS.take 20 (frames ([token_payload "Hello "]
                                  ++ malformed_payload :: [done_payload "c1" ""]));
            JS.slice_from 20 (frames ([token_payload "Hello "]
                                        ++ malformed_payload :: [done_payload "c1" ""]))]
           malformed_payload).
  - repeat constructor.
  - reflexivity.
  - reflexivity.
Defined.

End DecoderFacts.

(** ** The streaming hook *)
Module StreamingQueryFacts.
Import StreamingQuery StringFacts.

Lemma executeQuery_begin_not_cancelled (h : HookState) :
  cancelled (executeQuery_begin h) = false.
Proof.
  unfold cancelled, executeQuery_begin, aborted; simpl.
  now rewrite list_lookup_middle.
Qed.

Lemma cancelQuery_not_cancelled (h : HookState) :
  cancelled h = false -> cancelled (cancelQuery h) = false.
Proof.
  unfold cancelled, cancelQuery.
  destruct (abortControllerRef h) as [p|] eqn:Href; simpl; [reflexivity |].
  now rewrite Href.
Qed.

Lemma finally_not_cancelled (h : HookState) : cancelled (finally h) = false.
Proof. reflexivity. Qed.

(** The loop body leaves the ref and the controllers alone. *)
Lemma on_event_controllers (event : StreamEvent) (l : Loop) :
  abortControllerRef (hook (on_event event l)) = abortControllerRef (hook l)
  /\ controllers (hook (on_event event l)) = controllers (hook l).
Proof.
  unfold on_event.
  repeat match goal with
         | |- context [if ?b then _ else _] => destruct b
         end; split; reflexivity.
Qed.

Lemma on_event_cancelled (event : StreamEvent) (l : Loop) :
  cancelled (hook (on_event event l)) = cancelled (hook l).
Proof.
  unfold cancelled. destruct (on_event_controllers event l) as [-> ->]. reflexivity.
Qed.

Lemma events_handled_cancelled (events : list StreamEvent) (l : Loop) :
  cancelled (hook (events_handled events l)) = cancelled (hook l).
Proof.
  revert l. induction events as [|event more IH]; intros l; simpl; [reflexivity |].
  unfold events_handled in *. simpl. now rewrite IH, on_event_cancelled.
Qed.

(** While the check of the loop does not fire, the loop handles every
    event and is not left by [break]. *)
Lemma consume_not_cancelled (events : list StreamEvent) (l : Loop) :
  cancelled (hook l) = false ->
  consume events l = (events_handled events l, false).
Proof.
  revert l. induction events as [|event more IH]; intros l Hl; simpl; [reflexivity |].
  rewrite Hl. apply IH. now rewrite on_event_cancelled.
Qed.

Section WithParser.
Context `{parser : JsonParser}.

(** A call without a signal whose check never fires handles every event
    of the body and then ends as the body ends. *)
Lemma pump_not_cancelled (src : Source) (buffer : string) (l : Loop) :
  cancelled (hook l) = false ->
  pump None src buffer l
  = match Api.decode buffer src with
    | (events, Api.Completed) => leave None (events_handled events l)
    | (events, Api.Threw message) => fail None message (events_handled events l)
    end.
Proof.
  revert buffer l. induction src as [text rest IH | | message]; intros buffer l Hl.
  - cbn [pump Api.decode aborted].
    destruct (Api.process_chunk buffer text) as [events kept].
    rewrite consume_not_cancelled by exact Hl.
    rewrite IH by now rewrite events_handled_cancelled.
    destruct (Api.decode kept rest) as [later finish].
    unfold events_handled. rewrite fold_left_app. reflexivity.
  - reflexivity.
  - reflexivity.
Qed.

Lemma events_handled_done (earlier : list StreamEvent) (done_event : StreamEvent) (l : Loop) :
  ev_type done_event = "done" ->
  result (events_handled (earlier ++ [done_event]) l)
  = Some {| conversationId := JS.or_str (ev_conversation_id done_event) "";
            answer := JS.or_str (ev_answer done_event) "";
            sqlQuery := ev_sql_query done_event |}.
Proof.
  intros Hdone. unfold events_handled. rewrite fold_left_app. simpl.
  unfold on_event. rewrite Hdone. reflexivity.
Qed.

(** C2, as the code has it: when the events of the body end with a [done]
    event, [executeQuery] returns a result whose answer is the event's own
    answer when that is not empty and the empty string otherwise; the
    token fragments are not merged into the result (they are in
    [streamedContent], and the caller merges them). *)
Theorem done_answer_is_the_events_own (src : Source) (h : HookState)
  (earlier : list StreamEvent) (done_event : StreamEvent) :
  Api.streamQuery_events src = (earlier ++ [done_event], Api.Completed) ->
  ev_type done_event = "done" ->
  let '(_, _, ending) := executeQuery src h in
  returned ending
  = Some {| conversationId := JS.or_str (ev_conversation_id done_event) "";
            answer := match ev_answer done_event with
                      | Some a => a
                      | None => ""
                      end;
            sqlQuery := ev_sql_query done_event |}.
Proof.
  intros Hevents Hdone. unfold executeQuery.
  rewrite pump_not_cancelled by apply executeQuery_begin_not_cancelled.
  unfold Api.streamQuery_events in Hevents. rewrite Hevents.
  cbn [leave returned].
  rewrite events_handled_done by exact Hdone.
  destruct (ev_answer done_event) as [[|c a]|]; reflexivity.
Qed.

Lemma run_snoc (schedule : list Action) (a : Action) :
  run (schedule ++ [a]) = step (run schedule) a.
Proof. unfold run. now rewrite fold_left_app. Qed.

Lemma settle_unseen (i : nat) (c : Call) (w : World) (l : Loop) (e : Ending) :
  Forall unseen (calls w) -> call_signal c = None ->
  cancelled (hook l) = false -> reader_cancelled e = false ->
  cancellation_unseen (settle i c w (l, e)).
Proof.
  intros Hcalls Hsig Hl He. split; [exact Hl |].
  cbn [settle calls]. apply Forall_insert; [exact Hcalls |].
  split; [exact Hsig |]. cbn. intros e' [= <-]. exact He.
Qed.

Lemma step_unseen (w : World) (a : Action) :
  cancellation_unseen w -> cancellation_unseen (step w a).
Proof.
  intros [Hhook Hcalls]. destruct a as [body | | i]; cbn [step].
  - split; [apply executeQuery_begin_not_cancelled |].
    cbn [calls]. apply Forall_app. split; [exact Hcalls |].
    constructor; [| constructor]. split; [reflexivity | discriminate].
  - split; [now apply cancelQuery_not_cancelled | exact Hcalls].
  - unfold read. destruct (calls w !! i) as [c|] eqn:Hc; [| now split].
    destruct (call_ending c) as [e|] eqn:He; [now split |].
    pose proof (Forall_lookup_1 _ _ _ _ Hcalls Hc) as [Hsig _].
    rewrite Hsig. cbn [aborted].
    destruct (call_source c) as [text rest | | message].
    + destruct (Api.process_chunk (call_buffer c) text) as [events kept].
      rewrite consume_not_cancelled by exact Hhook.
      split.
      * cbn [the_hook]. now rewrite events_handled_cancelled.
      * cbn [calls]. apply Forall_insert; [exact Hcalls |].
        split; [reflexivity | discriminate].
    + now apply settle_unseen.
    + now apply settle_unseen.
Qed.

(** Whatever the page does and whenever the reads settle, the check of the
    loop never reads an aborted signal, no call hands a signal to
    [streamQuery], and no reader is cancelled: cancelling aborts a
    controller and takes it out of the ref in one go, and a new call puts
    a fresh controller there. *)
Lemma cancellation_never_seen (schedule : list Action) :
  cancellation_unseen (run schedule).
Proof.
  induction schedule as [|a schedule IH] using rev_ind.
  - split; [reflexivity | constructor].
  - rewrite run_snoc. now apply step_unseen.
Qed.

End WithParser.

Import Examples.

(** A call that nothing interrupts does in the world what [executeQuery]
    does alone. *)
Example run_alone_agrees :
  let w := run (parser := sample_parser) [ExecuteQuery hello_world; Read 0; Read 0; Read 0] in
  let '(h, observed, ending) := executeQuery (parser := sample_parser) hello_world initial in
  the_hook w = h
  /\ invoked_by 0 (log w) = observed
  /\ (call_ending <$> calls w !! 0) = Some (Some ending).
Proof. vm_compute. repeat split. Qed.

(** The amended C2 at the body "Hello world". *)
Lemma done_answer_is_the_events_own_witness :
  let '(_, _, ending) := executeQuery (parser := sample_parser) hello_world initial in
  returned ending
  = Some {| conversationId := JS.or_str (ev_conversation_id (done_event "c1" "")) "";
            answer := match ev_answer (done_event "c1" "") with
                      | Some a => a
                      | None => ""
                      end;
            sqlQuery := ev_sql_query (done_event "c1" "") |}.
Proof.
  apply (done_answer_is_the_events_own (parser := sample_parser) hello_world initial
           [token_event "Hello "; token_event "world"] (done_event "c1" ""));
    reflexivity.
Defined.

(** C2 as stated fails: after the tokens "Hello " and "world" and a [done]
    event with an empty answer, the answer the specification describes is
    "Hello world", and no result with that answer is returned (the answer
    returned is empty). *)
Lemma hello_world_answer_not_merged :
  Api.streamQuery_events (parser := sample_parser) hello_world
  = ([token_event "Hello "; token_event "world"; done_event "c1" ""], Api.Completed)
  /\ SpecifiedAnswer.answer_with_fallback
       [token_event "Hello "; token_event "world"] (done_event "c1" "")
     = "Hello world"
  /\ ~ (exists r : StreamResult,
           returned (snd (executeQuery (parser := sample_parser) hello_world initial))
           = Some r
           /\ answer r = "Hello world").
Proof.
  split; [reflexivity |]. split; [reflexivity |].
  intros (r & Hr & Ha). vm_compute in Hr. injection Hr as <-.
  discriminate Ha.
Qed.

(** C4, on the code: [cancelQuery] in the middle of the body "Hello
    world" changes nothing for the call.  The events that arrive after it
    are handled, [onToken] and [onComplete] are called, the call returns
    the result and not [null], and the reader is not cancelled. *)
Theorem cancel_mid_stream_not_observed :
  let w := run (parser := sample_parser)
               [ExecuteQuery hello_world; Read 0; CancelQuery; Read 0; Read 0] in
  let r := {| conversationId := "c1"; answer := ""; sqlQuery := None |} in
  after is_cancel (log w)
  = [Invoked 0 (OnToken "world"); Invoked 0 (OnComplete r); Settled 0 (Some r)]
  /\ (call_ending <$> calls w !! 0)
     = Some (Some {| returned := Some r; reader_cancelled := false |})
  /\ controllers (the_hook w) = [true].
Proof. vm_compute. repeat split. Qed.

(** C3, on the code: a second [executeQuery] while the first is reading
    does not stop the first.  After the second call has begun, the first
    call's [onComplete] is called when its body goes on, and its [onError]
    when its next read fails; the observers of the second call see the
    events of the second body only. *)
Theorem superseded_call_keeps_calling_back :
  let r := {| conversationId := "c1"; answer := ""; sqlQuery := None |} in
  let w := run (parser := sample_parser)
               [ExecuteQuery hello_world; Read 0; ExecuteQuery second_answer;
                Read 0; Read 0; Read 1; Read 1] in
  let w' := run (parser := sample_parser)
                [ExecuteQuery hello_then_failure; Read 0; ExecuteQuery second_answer;
                 Read 0; Read 1; Read 1] in
  invoked_by 0 (after (is_began 1) (log w)) = [OnToken "world"; OnComplete r]
  /\ invoked_by 0 (after (is_began 1) (log w')) = [OnError "network error" None]
  /\ invoked_by 1 (log w)
     = [OnToken "other";
        OnComplete {| conversationId := "c2"; answer := "Second answer";
                      sqlQuery := None |}]
  /\ controllers (the_hook w) = [true; false].
Proof. vm_compute. repeat split. Qed.

End StreamingQueryFacts.

(** ** Request headers *)
Module ApiFacts.
Import Api.

(** The credential header is on a request exactly when a key is stored and
    [isSecureUrl] accepts the URL. *)
Lemma credential_header (clientId : string) (openaiApiKey : option string) (url : string) :
  request_headers clientId openaiApiKey url !! "X-OpenAI-API-Key"
  = if JS.truthy_opt openaiApiKey && isSecureUrl url then openaiApiKey else None.
Proof.
  unfold request_headers.
  destruct (JS.truthy_opt openaiApiKey && isSecureUrl url) eqn:Hsend.
  - rewrite lookup_insert_eq. destruct openaiApiKey; [reflexivity | discriminate].
  - destruct (JS.truthy clientId).
    + rewrite lookup_insert_ne by discriminate. now rewrite lookup_singleton_ne.
    + now rewrite lookup_singleton_ne.
Qed.

(** Every HTTPS URL and every URL of the hosts [localhost] and [127.0.0.1]
    that the default configuration uses is accepted. *)
Lemma default_url_is_secure :
  isSecureUrl (streamUrl None) = true
  /\ SecureDestination.secure_destination (streamUrl None) = true.
Proof. split; reflexivity. Qed.

(** In the other direction the test is narrower than the loopback
    addresses: the IPv6 loopback over plain HTTP is not accepted. *)
Example ipv6_loopback_not_accepted :
  SecureDestination.secure_destination "http://[::1]:8000/api/v1/query/stream" = true
  /\ isSecureUrl "http://[::1]:8000/api/v1/query/stream" = false.
Proof. split; reflexivity. Qed.

(** C1, on the code: with the API base URL
    [http://localhost.evil.example] the streaming request goes over plain
    HTTP to a host that is not a loopback address, and carries the stored
    key in [X-OpenAI-API-Key]: [isSecureUrl] looks for the text
    "localhost" anywhere in the URL. *)
Theorem credential_sent_to_plain_http_host :
  let base := Some "http://localhost.evil.example" in
  let localStorage : gmap string string :=
    {[ Settings.OPENAI_API_KEY_STORAGE_KEY := "sk-user-secret" ]} in
  streamUrl base = "http://localhost.evil.example/api/v1/query/stream"
  /\ SecureDestination.is_https (streamUrl base) = false
  /\ SecureDestination.url_host (streamUrl base) = "localhost.evil.example"
  /\ SecureDestination.is_loopback_host (SecureDestination.url_host (streamUrl base)) = false
  /\ SecureDestination.secure_destination (streamUrl base) = false
  /\ isSecureUrl (streamUrl base) = true
  /\ streamQuery_headers base "device-1" localStorage !! "X-OpenAI-API-Key"
     = Some "sk-user-secret".
Proof. vm_compute. repeat split. Qed.

End ApiFacts.

(** ** Settings *)
Module SettingsFacts.
Import Settings SettingsStore.

(** X1: in the browser, what [getOpenAIApiKey] reads after
    [setOpenAIApiKey] is the key when it is not empty and nothing when it
    is [null] or empty, [hasCustomApiKey] says which; every other entry of
    the storage, the client identity among them, is as before. *)
Theorem api_key_round_trip (apiKey : option string) (localStorage : gmap string string) :
  getOpenAIApiKey true (setOpenAIApiKey true apiKey localStorage)
  = (if JS.truthy_opt apiKey then apiKey else None)
  /\ hasCustomApiKey true (setOpenAIApiKey true apiKey localStorage)
     = JS.truthy_opt apiKey
  /\ (forall key : string,
         setOpenAIApiKey true apiKey localStorage !! key
         = if String.eqb key OPENAI_API_KEY_STORAGE_KEY
           then (if JS.truthy_opt apiKey then apiKey else None)
           else localStorage !! key)
  /\ setOpenAIApiKey true apiKey localStorage !! ClientId.CLIENT_ID_KEY
     = localStorage !! ClientId.CLIENT_ID_KEY
  /\ setOpenAIApiKey false apiKey localStorage = localStorage.
Proof.
  assert (Hlookup : forall key : string,
             setOpenAIApiKey true apiKey localStorage !! key
             = if String.eqb key OPENAI_API_KEY_STORAGE_KEY
               then (if JS.truthy_opt apiKey then apiKey else None)
               else localStorage !! key).
  { intros key. unfold setOpenAIApiKey.
    destruct (String.eqb_spec key OPENAI_API_KEY_STORAGE_KEY) as [-> | Hne].
    - destruct apiKey as [[|c rest]|]; cbn;
        [apply lookup_delete_eq | apply lookup_insert_eq | apply lookup_delete_eq].
    - destruct (JS.truthy_opt apiKey).
      + now rewrite lookup_insert_ne.
      + now rewrite lookup_delete_ne. }
  assert (Hget : getOpenAIApiKey true (setOpenAIApiKey true apiKey localStorage)
                 = (if JS.truthy_opt apiKey then apiKey else None)).
  { unfold getOpenAIApiKey. now rewrite Hlookup, String.eqb_refl. }
  split; [exact Hget |]. split.
  - unfold hasCustomApiKey. rewrite Hget. now destruct (JS.truthy_opt apiKey) eqn:Ht.
  - split; [exact Hlookup |]. split; [| reflexivity].
    now rewrite Hlookup.
Qed.

Lemma valid_key_truthy (apiKey : string) :
  isValidApiKeyFormat apiKey = true -> JS.truthy apiKey = true.
Proof. destruct apiKey; [discriminate | reflexivity]. Qed.

(** X2: the dialog never stores a key of the wrong format.  If the key in
    the storage is absent or well formed, it still is after [handleSave]
    and after [handleClear], whatever the field holds; when [handleSave]
    shows an error the storage is as before, and when it shows none the
    storage holds the field's content, or no key for an empty field. *)
Theorem dialog_stores_only_well_formed_keys (d : Dialog)
  (localStorage : gmap string string) :
  stored_key_ok localStorage ->
  stored_key_ok (snd (handleSave d localStorage))
  /\ stored_key_ok (snd (handleClear d localStorage))
  /\ match dlg_error (fst (handleSave d localStorage)) with
     | Some _ => snd (handleSave d localStorage) = localStorage
     | None =>
         getOpenAIApiKey true (snd (handleSave d localStorage))
         = (if JS.truthy (dlg_apiKey d) then Some (dlg_apiKey d) else None)
     end.
Proof.
  intros Hstored. unfold handleSave, handleClear, stored_key_ok in *.
  split; [| split].
  - destruct (dlg_apiKey d) as [|c rest] eqn:Hkey; cbn.
    + unfold getOpenAIApiKey. now rewrite lookup_delete_eq.
    + destruct (isValidApiKeyFormat (String c rest)) eqn:Hfmt; cbn.
      * unfold getOpenAIApiKey. now rewrite lookup_insert_eq.
      * exact Hstored.
  - cbn. unfold getOpenAIApiKey. now rewrite lookup_delete_eq.
  - destruct (dlg_apiKey d) as [|c rest] eqn:Hkey; cbn.
    + unfold getOpenAIApiKey. now rewrite lookup_delete_eq.
    + destruct (isValidApiKeyFormat (String c rest)) eqn:Hfmt; cbn.
      * unfold getOpenAIApiKey. now rewrite lookup_insert_eq.
      * reflexivity.
Qed.

(** X2 at a dialog whose field holds a malformed key, over a storage with a
    well-formed key. *)
Lemma dialog_stores_only_well_formed_keys_witness :
  let d := {| dlg_apiKey := "secret"; dlg_hasKey := true; dlg_error := None;
              dlg_saved := false |} in
  let localStorage : gmap string string :=
    {[ OPENAI_API_KEY_STORAGE_KEY := "sk-abcdefghijABCDEFGHIJ0123_-" ]} in
  stored_key_ok (snd (handleSave d localStorage))
  /\ stored_key_ok (snd (handleClear d localStorage))
  /\ match dlg_error (fst (handleSave d localStorage)) with
     | Some _ => snd (handleSave d localStorage) = localStorage
     | None =>
         getOpenAIApiKey true (snd (handleSave d localStorage))
         = (if JS.truthy (dlg_apiKey d) then Some (dlg_apiKey d) else None)
     end.
Proof.
  apply (dialog_stores_only_well_formed_keys
           {| dlg_apiKey := "secret"; dlg_hasKey := true; dlg_error := None;
              dlg_saved := false |}
           {[ OPENAI_API_KEY_STORAGE_KEY := "sk-abcdefghijABCDEFGHIJ0123_-" ]}).
  vm_compute. reflexivity.
Defined.

End SettingsFacts.

(** ** The identity in the storage and on requests *)
Module IdentityFacts.
Import ClientId ClientIdFacts.

Lemma formatFingerprint_truthy (fingerprint : string) :
  JS.truthy (formatFingerprint fingerprint) = true.
Proof.
  unfold formatFingerprint.
  destruct (hex8_digits _ (hashString_range fingerprint))
    as (a1 & a2 & a3 & a4 & a5 & a6 & a7 & a8 & -> & _).
  reflexivity.
Qed.

Lemma lxor_mod_pow2 (a b n : Z) :
  (0 <= n)%Z ->
  (Z.lxor a b mod 2 ^ n = Z.lxor (a mod 2 ^ n) (b mod 2 ^ n))%Z.
Proof.
  intros Hn. apply Z.bits_inj'. intros i Hi.
  rewrite Z.lxor_spec, !Z.testbit_mod_pow2, Z.lxor_spec by exact Hn.
  now destruct (i <? n)%Z.
Qed.

Lemma toInt32_mod (z : Z) : (JS.toInt32 z mod 2 ^ 32 = z mod 2 ^ 32)%Z.
Proof.
  unfold JS.toInt32.
  rewrite <- Zminus_mod_idemp_l, Z.mod_mod by lia.
  rewrite Zminus_mod_idemp_l. f_equal. lia.
Qed.

Lemma xor32_mod (a b : Z) :
  (JS.xor32 a b mod 2 ^ 32 = Z.lxor a b mod 2 ^ 32)%Z.
Proof.
  unfold JS.xor32. rewrite !lxor_mod_pow2, !toInt32_mod by lia. reflexivity.
Qed.

Lemma hash_steps_agree (codes : list Z) (signed unsigned : Z) :
  (signed mod 2 ^ 32 = unsigned mod 2 ^ 32)%Z ->
  (fold_left (fun hash code => JS.xor32 (hash * 33) code) codes signed mod 2 ^ 32
   = fold_left (fun h code => (Z.lxor (h * 33) code) mod 2 ^ 32) codes unsigned
     mod 2 ^ 32)%Z.
Proof.
  revert signed unsigned. induction codes as [|code more IH]; intros s u Hsu.
  - exact Hsu.
  - cbn [fold_left]. apply IH.
    assert (H33 : ((s * 33) mod 2 ^ 32 = (u * 33) mod 2 ^ 32)%Z).
    { rewrite <- (Z.mul_mod_idemp_l s), <- (Z.mul_mod_idemp_l u) by lia.
      now rewrite Hsu. }
    rewrite xor32_mod, Z.mod_mod by lia.
    rewrite !(lxor_mod_pow2 _ code) by lia.
    now rewrite H33.
Qed.

Lemma hash_u32_step_range (codes : list Z) (h : Z) :
  (0 <= h < 2 ^ 32)%Z ->
  (0 <= fold_left (fun h code => (Z.lxor (h * 33) code) mod 2 ^ 32) codes h < 2 ^ 32)%Z.
Proof.
  revert h. induction codes as [|code more IH]; intros h Hh; [exact Hh |].
  cbn [fold_left]. apply IH. apply Z.mod_pos_bound. lia.
Qed.

(** X3: the hash computed with JavaScript's signed 32-bit exclusive or and
    a final [>>> 0] is the hash of plain unsigned 32-bit arithmetic:
    from 5381, multiply by 33, exclusive-or the character code, keep the
    low 32 bits. *)
Theorem hashString_is_unsigned_hash (str : string) :
  hashString str = Djb2.hash_u32 (JS.charCodes str).
Proof.
  unfold hashString, JS.toUint32, Djb2.hash_u32.
  rewrite (hash_steps_agree _ 5381 5381) by reflexivity.
  apply Z.mod_small. apply hash_u32_step_range. lia.
Qed.

Section Browser.
Context {number : Type}.
Variable numToString : number -> string.
Variable numTruthy : number -> bool.
Variable numOfZ : Z -> number.

#[local] Abbreviation getId := (getClientId numToString numTruthy numOfZ).
#[local] Abbreviation fingerprintOf := (generateDeviceFingerprint numToString numTruthy numOfZ).
#[local] Abbreviation prepare := (ApiSession.prepare_request numToString numTruthy numOfZ).

Lemma getClientId_after_set (d : Device (number := number)) (id : string)
  (localStorage : gmap string string) :
  fst (getId (Some d) (setClientId (Some d) id localStorage))
  = (if JS.truthy id then id else fingerprintOf (Some d)).
Proof.
  unfold getClientId, setClientId. rewrite lookup_insert_eq.
  cbn [JS.truthy_opt default]. now destruct (JS.truthy id).
Qed.

Lemma getClientId_fills_cache (d : Device (number := number))
  (localStorage : gmap string string) :
  JS.truthy (fst (getId (Some d) localStorage)) = true
  /\ forall key : string,
       snd (getId (Some d) localStorage) !! key
       = if String.eqb key CLIENT_ID_KEY
         then Some (fst (getId (Some d) localStorage))
         else localStorage !! key.
Proof.
  unfold getClientId, generateDeviceFingerprint.
  rewrite formatFingerprint_truthy.
  destruct (localStorage !! CLIENT_ID_KEY) as [stored|] eqn:Hstored;
    cbn [JS.truthy_opt default].
  - destruct (JS.truthy stored) eqn:Ht; cbn [fst snd].
    + split; [exact Ht |]. intros key.
      destruct (String.eqb_spec key CLIENT_ID_KEY) as [-> | Hne]; [| reflexivity].
      exact Hstored.
    + split; [apply formatFingerprint_truthy |]. intros key.
      destruct (String.eqb_spec key CLIENT_ID_KEY) as [-> | Hne].
      * apply lookup_insert_eq.
      * now apply lookup_insert_ne.
  - cbn [fst snd]. split; [apply formatFingerprint_truthy |]. intros key.
    destruct (String.eqb_spec key CLIENT_ID_KEY) as [-> | Hne].
    + apply lookup_insert_eq.
    + now apply lookup_insert_ne.
Qed.

(** X4: [setClientId] overrides: in the browser [getClientId] after
    [setClientId id] returns [id], whatever was stored or would be derived,
    unless [id] is empty, when the derived identifier is returned; where
    there is no window the three functions leave the storage alone and
    [getClientId] returns the empty string. *)
Theorem setClientId_overrides (d : Device (number := number)) (id : string)
  (localStorage : gmap string string) :
  fst (getId (Some d) (setClientId (Some d) id localStorage))
  = (if JS.truthy id then id else fingerprintOf (Some d))
  /\ getId None localStorage = ("", localStorage)
  /\ setClientId (number := number) None id localStorage = localStorage
  /\ clearClientId (number := number) None localStorage = localStorage.
Proof.
  split; [apply getClientId_after_set | repeat split].
Qed.

(** X5: in the browser [getClientId] never returns the empty string, and
    afterwards the storage holds the returned identifier under the
    identity key and every other entry as before. *)
Theorem getClientId_cached (d : Device (number := number))
  (localStorage : gmap string string) :
  JS.truthy (fst (getId (Some d) localStorage)) = true
  /\ forall key : string,
       snd (getId (Some d) localStorage) !! key
       = if String.eqb key CLIENT_ID_KEY
         then Some (fst (getId (Some d) localStorage))
         else localStorage !! key.
Proof. apply getClientId_fills_cache. Qed.

Lemma client_id_header (clientId : string) (openaiApiKey : option string) (url : string) :
  Api.request_headers clientId openaiApiKey url !! "X-Client-ID"
  = if JS.truthy clientId then Some clientId else None.
Proof.
  unfold Api.request_headers.
  destruct (JS.truthy_opt openaiApiKey && Api.isSecureUrl url);
    [rewrite lookup_insert_ne by discriminate |];
    (destruct (JS.truthy clientId);
     [apply lookup_insert_eq | now apply lookup_singleton_ne]).
Qed.

Lemma prepare_request_identity (d : Device (number := number)) (url : string)
  (localStorage : gmap string string) :
  fst (prepare d url localStorage) !! "X-Client-ID"
  = Some (fst (getId (Some d) localStorage))
  /\ snd (prepare d url localStorage) = snd (getId (Some d) localStorage).
Proof.
  unfold ApiSession.prepare_request.
  pose proof (getClientId_fills_cache d localStorage) as [Ht _].
  destruct (getId (Some d) localStorage) as [clientId stored]; cbn [fst snd] in *.
  now rewrite client_id_header, Ht.
Qed.

(** X6: every request from the browser carries an identity, and the
    identity the server sends back wins: after a response with a
    non-empty [X-Client-ID] the next request carries that one, and after a
    response without one it carries the same identity as the request
    before. *)
Theorem server_identity_is_sent_next (d : Device (number := number))
  (url url' : string) (newClientId : option string)
  (localStorage : gmap string string) :
  let sent := fst (getId (Some d) localStorage) in
  let after_response :=
    ApiSession.receive_response d newClientId (snd (prepare d url localStorage)) in
  fst (prepare d url localStorage) !! "X-Client-ID" = Some sent
  /\ JS.truthy sent = true
  /\ fst (prepare d url' after_response) !! "X-Client-ID"
     = Some (if JS.truthy_opt newClientId then default "" newClientId else sent).
Proof.
  cbn zeta.
  destruct (prepare_request_identity d url localStorage) as [Hsent Hstore].
  pose proof (getClientId_fills_cache d localStorage) as [Ht Hcached].
  split; [exact Hsent |]. split; [exact Ht |].
  destruct (prepare_request_identity d url'
              (ApiSession.receive_response d newClientId
                 (snd (prepare d url localStorage)))) as [Hnext _].
  rewrite Hnext, Hstore. f_equal.
  unfold ApiSession.receive_response.
  destruct (JS.truthy_opt newClientId) eqn:Hnew.
  - destruct newClientId as [sid|]; [| discriminate].
    change (default "" (Some sid)) with sid.
    rewrite (getClientId_after_set d sid (snd (getId (Some d) localStorage))). cbn in Hnew. now rewrite Hnew.
  - pose proof (getClientId_twice numToString numTruthy numOfZ (Some d) localStorage)
      as Htwice.
    now destruct (getId (Some d) localStorage) as [first stored].
Qed.

End Browser.

End IdentityFacts.

(** ** More on the frame decoder *)
Module BlockFacts.
Import Api Blocks StringFacts DecoderFacts.

Lemma is_nl_false (c : ascii) : is_nl c = false -> c <> ascii_of_nat 10.
Proof. intros Hc ->. discriminate Hc. Qed.

Lemma prefix_blank_line (c c2 : ascii) (s : string) :
  String.prefix BLANK_LINE (String c (String c2 s)) = is_nl c && is_nl c2.
Proof.
  unfold BLANK_LINE. cbn [String.prefix].
  destruct (ascii_dec (ascii_of_nat 10) c) as [<- | Hc].
  - destruct (ascii_dec (ascii_of_nat 10) c2) as [<- | Hc2]; [now destruct s |].
    destruct (is_nl c2) eqn:Hn; [| reflexivity].
    apply is_nl_eq in Hn. congruence.
  - destruct (is_nl c) eqn:Hn; [| reflexivity].
    apply is_nl_eq in Hn. congruence.
Qed.

Lemma prefix_blank_line_short (c : ascii) :
  String.prefix BLANK_LINE (String c EmptyString) = false.
Proof.
  unfold BLANK_LINE. cbn [String.prefix].
  now destruct (ascii_dec (ascii_of_nat 10) c).
Qed.

(** A text without a blank line is one open piece. *)
Lemma split_blank_open (s : string) :
  JS.includes s BLANK_LINE = false -> split_blank s = [s].
Proof.
  induction s as [| c | c c2 s IHs IHc] using string_ind2; intros Hs;
    try reflexivity.
  cbn [JS.includes] in Hs. apply orb_false_elim in Hs as [Hpre Hrest].
  rewrite prefix_blank_line in Hpre.
  rewrite split_blank_step by exact Hpre.
  rewrite IHc; [reflexivity |]. exact Hrest.
Qed.

(** A closed block is cut off whole at its blank line. *)
Lemma split_blank_block (b rest : string) :
  closed_block b = true ->
  split_blank (b +:+ BLANK_LINE +:+ rest) = b :: split_blank rest.
Proof.
  induction b as [|c b IH]; intros Hb; [reflexivity |].
  destruct b as [|c2 b].
  - cbn in Hb. apply negb_true_iff in Hb.
    change (String c "" +:+ BLANK_LINE +:+ rest)
      with (String c (String (ascii_of_nat 10) (String (ascii_of_nat 10) rest))).
    rewrite split_blank_step by now rewrite Hb.
    change (split_blank (String (ascii_of_nat 10) (String (ascii_of_nat 10) rest)))
      with ("" :: split_blank rest).
    reflexivity.
  - cbn [closed_block] in Hb. apply andb_prop in Hb as [Hnl Hb].
    apply negb_true_iff in Hnl.
    change (String c (String c2 b) +:+ BLANK_LINE +:+ rest)
      with (String c (String c2 (b +:+ BLANK_LINE +:+ rest))).
    rewrite split_blank_step by exact Hnl.
    change (String c2 (b +:+ BLANK_LINE +:+ rest))
      with (String c2 b +:+ BLANK_LINE +:+ rest).
    now rewrite IH.
Qed.

Lemma split_blank_blocks (blocks : list string) (tail : string) :
  Forall (fun b => closed_block b = true) blocks ->
  JS.includes tail BLANK_LINE = false ->
  split_blank (blocks_text blocks +:+ tail) = blocks ++ [tail].
Proof.
  intros Hblocks Htail. induction Hblocks as [|b more Hb Hmore IH].
  - now apply split_blank_open.
  - cbn [blocks_text app]. rewrite !append_assoc.
    rewrite split_blank_block by exact Hb. now rewrite IH.
Qed.

(** The first piece of a text is empty or begins as the text does. *)
Lemma first_piece (c : ascii) (s p : string) (ps : list string) :
  split_blank (String c s) = p :: ps ->
  p = EmptyString \/ exists p', p = String c p'.
Proof.
  destruct s as [|c2 s].
  - intros [= <- <-]. right. now exists "".
  - destruct (is_nl c && is_nl c2) eqn:Hnl.
    + rewrite split_blank_sep by exact Hnl. intros [= <- <-]. now left.
    + rewrite split_blank_step by exact Hnl.
      destruct (split_blank (String c2 s)) as [|q qs]; intros [= <- <-]; right; eauto.
Qed.

Lemma pieces_hold_no_blank_line (s : string) :
  Forall (fun p => JS.includes p BLANK_LINE = false) (split_blank s).
Proof.
  induction s as [| c | c c2 s IHs IHc] using string_ind2.
  - repeat constructor.
  - constructor; [| constructor]. cbn [JS.includes].
    now rewrite prefix_blank_line_short.
  - destruct (is_nl c && is_nl c2) eqn:Hnl.
    + rewrite split_blank_sep by exact Hnl. constructor; [reflexivity | exact IHs].
    + rewrite split_blank_step by exact Hnl.
      destruct (split_blank (String c2 s)) as [|p ps] eqn:Hsplit.
      * now apply split_blank_nonempty in Hsplit.
      * apply Forall_cons in IHc as [Hp Hps]. cbn [cons_head].
        constructor; [| exact Hps].
        cbn [JS.includes]. rewrite Hp, orb_false_r.
        destruct (first_piece _ _ _ _ Hsplit) as [-> | [p' ->]].
        -- apply prefix_blank_line_short.
        -- now rewrite prefix_blank_line.
Qed.

Section WithParser.
Context `{parser : JsonParser}.

Lemma text_of_delivered (chunks : list string) (final : Source) :
  text_of (delivered chunks final) = whole chunks +:+ text_of final.
Proof.
  induction chunks as [|t more IH]; [reflexivity |].
  cbn [delivered text_of whole]. now rewrite IH, append_assoc.
Qed.

Lemma finish_of_delivered (chunks : list string) (final : Source) :
  finish_of (delivered chunks final) = finish_of final.
Proof. induction chunks as [|t more IH]; [reflexivity | exact IH]. Qed.

(** X7: a block is handled as a whole, and a body that ends without a
    blank line loses what follows the last one.  For a body of blocks,
    each closed by a blank line, followed by a tail without one, under any
    cut into chunks, the events are those of the blocks that begin with
    the marker and whose text after the marker parses, further lines
    included; the tail yields nothing, even when it is a complete
    payload line. *)
Theorem blocks_decoded_whole (blocks chunks : list string) (tail : string) :
  Forall (fun b => closed_block b = true) blocks ->
  JS.includes tail BLANK_LINE = false ->
  whole chunks = blocks_text blocks +:+ tail ->
  streamQuery_events (chunked chunks) = (omap parse_line blocks, Completed).
Proof.
  intros Hblocks Htail Hwhole.
  rewrite streamQuery_events_text, text_of_chunked, finish_of_chunked, Hwhole.
  unfold lines_of, split_buffer. cbn [fst].
  rewrite split_blank_blocks by assumption.
  now rewrite removelast_last.
Qed.

(** X8: after every read the buffer kept for the next read holds no blank
    line, and neither does any piece handed to the parser: a frame is
    parsed in the read that brings its blank line. *)
Theorem kept_buffer_holds_no_blank_line (buffer text : string) :
  JS.includes (snd (process_chunk buffer text)) BLANK_LINE = false
  /\ Forall (fun line => JS.includes line BLANK_LINE = false)
            (fst (split_buffer (buffer +:+ text))).
Proof.
  pose proof (pieces_hold_no_blank_line (buffer +:+ text)) as Hpieces.
  pose proof (split_blank_nonempty (buffer +:+ text)) as Hne.
  unfold process_chunk, split_buffer. cbn [fst snd].
  destruct (last (split_blank (buffer +:+ text))) as [p|] eqn:Hlast.
  - apply last_Some in Hlast as [l' Hl']. rewrite Hl' in *.
    rewrite removelast_last. apply Forall_app in Hpieces as [Hl Hp].
    apply Forall_cons in Hp as [Hp _]. rewrite or_str_last. now split.
  - now apply last_None in Hlast.
Qed.

(** X9: a read that fails ends the generator with the error, after the
    events of everything read before it: the events are those of the same
    chunks followed by the end of the data. *)
Theorem events_before_failure (chunks : list string) (message : string) :
  streamQuery_events (delivered chunks (ReadFails message))
  = (fst (streamQuery_events (chunked chunks)), Threw message).
Proof.
  rewrite !streamQuery_events_text, text_of_delivered, finish_of_delivered,
    text_of_chunked.
  cbn [text_of finish_of fst]. now rewrite append_empty_r.
Qed.

End WithParser.

Import Examples.

(** X7 at a body with a block of two fields, a data frame, and a complete
    payload line that no blank line closes, cut in the middle. *)
Lemma blocks_decoded_whole_witness :
  let blocks := ["event: token" +:+ LF +:+ "data: " +:+ token_payload "Hello ";
                 "data: " +:+ token_payload "world"] in
  let tail := "data: " +:+ done_payload "c1" "" in
  let text := blocks_text blocks +:+ tail in
  streamQuery_events (parser := sample_parser)
    (chunked [JS.take 30 text; JS.slice_from 30 text])
  = (omap (parse_line (parser := sample_parser)) blocks, Completed).
Proof.
  apply (blocks_decoded_whole (parser := sample_parser)
           ["event: token" +:+ LF +:+ "data: " +:+ token_payload "Hello ";
            "data: " +:+ token_payload "world"]
           [JS.take 30 (blocks_text
                          ["event: token" +:+ LF +:+ "data: " +:+ token_payload "Hello ";
                           "data: " +:+ token_payload "world"]
                        +:+ "data: " +:+ done_payload "c1" "");
            JS.slice_from 30 (blocks_text
                          ["event: token" +:+ LF +:+ "data: " +:+ token_payload "Hello ";
                           "data: " +:+ token_payload "world"]
                        +:+ "data: " +:+ done_payload "c1" "")]
           ("data: " +:+ done_payload "c1" "")).
  - repeat constructor.
  - reflexivity.
  - reflexivity.
Defined.

(** The events of that body: the token of the second block alone. *)
Example blocks_decoded_whole_events :
  let blocks := ["event: token" +:+ LF +:+ "data: " +:+ token_payload "Hello ";
                 "data: " +:+ token_payload "world"] in
  omap (parse_line (parser := sample_parser)) blocks = [token_event "world"].
Proof. reflexivity. Qed.

End BlockFacts.

(** ** More on the streaming hook *)
Module HookFacts.
Import StreamingQuery StreamingQueryFacts Observed StringFacts.

Lemma tokens_of_app (a b : list Callback) :
  tokens_of (a ++ b) = tokens_of a +:+ tokens_of b.
Proof.
  induction a as [|cb a IH]; [reflexivity |].
  destruct cb; cbn [app tokens_of]; rewrite IH; try reflexivity.
  now rewrite append_assoc.
Qed.

(** What the loop body does with one event, read off a fresh loop: the
    observer calls and the result do not depend on the loop's state. *)
Lemma on_event_fresh (event : StreamEvent) (l : Loop) :
  observed (on_event event l) = observed l ++ calls_for event
  /\ result (on_event event l)
     = match result_for event with Some r => Some r | None => result l end
  /\ streamedContent (hook (on_event event l))
     = streamedContent (hook l) +:+ tokens_of (calls_for event)
  /\ isStreaming (hook (on_event event l)) = isStreaming (hook l).
Proof.
  unfold calls_for, result_for, on_event, fresh.
  repeat match goal with
         | |- context [if ?b then _ else _] => destruct b
         end; cbn; rewrite ?app_nil_r, ?append_empty_r; repeat split; reflexivity.
Qed.

Lemma events_handled_fresh (events : list StreamEvent) (l : Loop) :
  observed (events_handled events l) = observed l ++ flat_map calls_for events
  /\ result (events_handled events l)
     = match last (omap result_for events) with Some r => Some r | None => result l end
  /\ streamedContent (hook (events_handled events l))
     = streamedContent (hook l) +:+ tokens_of (flat_map calls_for events)
  /\ isStreaming (hook (events_handled events l)) = isStreaming (hook l).
Proof.
  revert l. induction events as [|event more IH]; intros l.
  - cbn. now rewrite app_nil_r, append_empty_r.
  - change (events_handled (event :: more) l)
      with (events_handled more (on_event event l)).
    destruct (IH (on_event event l)) as (Hobs & Hres & Htok & Hstr).
    destruct (on_event_fresh event l) as (Hobs1 & Hres1 & Htok1 & Hstr1).
    rewrite Hobs, Hres, Htok, Hstr, Hobs1, Hres1, Htok1, Hstr1.
    cbn [flat_map]. rewrite tokens_of_app, <- app_assoc, append_assoc.
    repeat split; try reflexivity.
    change (omap result_for (event :: more))
      with (match result_for event with
            | Some r => r :: omap result_for more
            | None => omap result_for more
            end).
    destruct (result_for event) as [r|]; [| reflexivity].
    rewrite last_cons. now destruct (last (omap result_for more)).
Qed.

(** The loop body builds a result for the [done] events and for no
    other. *)
Lemma result_for_done (event : StreamEvent) :
  result_for event
  = if String.eqb (ev_type event) "done"
    then Some {| conversationId := JS.or_str (ev_conversation_id event) "";
                 answer := JS.or_str (ev_answer event) "";
                 sqlQuery := ev_sql_query event |}
    else None.
Proof.
  unfold result_for, on_event.
  destruct (String.eqb_spec (ev_type event) "done") as [-> | Hne]; [reflexivity |].
  repeat match goal with
         | |- context [if ?b then _ else _] => destruct b
         end; reflexivity.
Qed.

Section WithParser.
Context `{parser : JsonParser}.

(** [executeQuery] alone, in terms of the events of the body. *)
Lemma executeQuery_alone (src : Source) (h : HookState) :
  let l := events_handled (fst (Api.streamQuery_events src))
             {| hook := executeQuery_begin h; result := None; observed := [] |} in
  executeQuery src h
  = match snd (Api.streamQuery_events src) with
    | Api.Completed =>
        (finally (hook l), observed l,
         {| returned := result l; reader_cancelled := false |})
    | Api.Threw message =>
        (finally (setError (Some message) (hook l)),
         observed l ++ [OnError message None],
         {| returned := None; reader_cancelled := false |})
    end.
Proof.
  cbn zeta. unfold executeQuery, Api.streamQuery_events.
  rewrite pump_not_cancelled by apply executeQuery_begin_not_cancelled.
  destruct (Api.decode "" src) as [events [|message]]; reflexivity.
Qed.



(** X12: the state a call run alone leaves behind, whatever the body and
    the state before: the hook is not streaming, its ref is empty, the
    reader was never cancelled, one controller was made, and
    [streamedContent] is the fragments passed to [onToken], put together
    in order. *)
Theorem executeQuery_leaves (src : Source) (h : HookState) :
  let '(h', observed, ending) := executeQuery src h in
  isStreaming h' = false
  /\ abortControllerRef h' = None
  /\ reader_cancelled ending = false
  /\ length (controllers h') = S (length (controllers h))
  /\ streamedContent h' = tokens_of observed.
Proof.
  rewrite executeQuery_alone. cbn zeta.
  destruct (events_handled_fresh (fst (Api.streamQuery_events src))
              {| hook := executeQuery_begin h; result := None; observed := [] |})
    as (Hobs & _ & Htok & _).
  assert (Hctl : length (controllers
                   (hook (events_handled (fst (Api.streamQuery_events src))
                      {| hook := executeQuery_begin h; result := None;
                         observed := [] |})))
                 = S (length (controllers h))).
  { assert (Hsame : forall events l,
               controllers (hook (events_handled events l)) = controllers (hook l)).
    { intros events. induction events as [|e more IH]; intros l; [reflexivity |].
      change (events_handled (e :: more) l) with (events_handled more (on_event e l)).
      rewrite IH. apply on_event_controllers. }
    rewrite Hsame. cbn [hook]. unfold executeQuery_begin, cancelQuery.
    destruct (abortControllerRef h); cbn; rewrite length_app; cbn;
      rewrite ?length_insert; lia. }
  destruct (snd (Api.streamQuery_events src)) as [|message];
    (repeat split; try reflexivity; [exact Hctl |]);
    cbn [finally setRef setIsStreaming setError streamedContent];
    rewrite Htok, Hobs; cbn [observed hook app].
  - reflexivity.
  - rewrite tokens_of_app. cbn. now rewrite append_empty_r.
Qed.

End WithParser.

End HookFacts.

(** ** The hook under any schedule *)
Module WorldFacts.
Import StreamingQuery StreamingQueryFacts Observed.

Lemma consume_controllers (events : list StreamEvent) (l : Loop) :
  abortControllerRef (hook (fst (consume events l))) = abortControllerRef (hook l)
  /\ controllers (hook (fst (consume events l))) = controllers (hook l).
Proof.
  revert l. induction events as [|event more IH]; intros l; cbn [consume].
  - now split.
  - destruct (cancelled (hook l)); [now split |].
    destruct (IH (on_event event l)) as [-> ->]. apply on_event_controllers.
Qed.

Section WithParser.
Context `{parser : JsonParser}.

Lemma settle_ref_is_latest (i : nat) (c : Call) (w : World) (l : Loop) (e : Ending) :
  length (controllers (hook l)) = length (calls w) ->
  abortControllerRef (hook l) = None ->
  ref_is_latest (settle i c w (l, e)).
Proof.
  intros Hlen Href. split; cbn [settle the_hook calls].
  - now rewrite length_insert.
  - now rewrite Href.
Qed.

Lemma step_ref_is_latest (w : World) (a : Action) :
  ref_is_latest w -> ref_is_latest (step w a).
Proof.
  intros [Hlen Href]. destruct a as [body | | i]; cbn [step].
  - split; cbn [the_hook calls].
    + unfold executeQuery_begin, cancelQuery.
      destruct (abortControllerRef (the_hook w)); cbn;
        rewrite !length_app, ?length_insert; cbn; lia.
    + unfold executeQuery_begin. cbn. split.
      * rewrite length_app. cbn. lia.
      * now rewrite list_lookup_middle.
  - split; cbn [the_hook calls].
    + unfold cancelQuery. destruct (abortControllerRef (the_hook w)); cbn;
        rewrite ?length_insert; exact Hlen.
    + unfold cancelQuery.
      destruct (abortControllerRef (the_hook w)) eqn:Hr; cbn; [exact I |].
      now rewrite Hr.
  - unfold read. destruct (calls w !! i) as [c|] eqn:Hc; [| now split].
    destruct (call_ending c) as [e|] eqn:He; [now split |].
    destruct (aborted (controllers (the_hook w)) (call_signal c)).
    { now apply settle_ref_is_latest. }
    destruct (call_source c) as [text rest | | message].
    + destruct (Api.process_chunk (call_buffer c) text) as [events kept].
      pose proof (consume_controllers events
                    {| hook := the_hook w; result := call_result c; observed := [] |})
        as [Hr Hc'].
      destruct (consume events _) as [l broke]. cbn [fst hook] in Hr, Hc'.
      destruct broke.
      * apply settle_ref_is_latest; cbn; [now rewrite Hc' | reflexivity].
      * split; cbn [the_hook calls].
        -- now rewrite length_insert, Hc'.
        -- now rewrite Hr, Hc'.
    + now apply settle_ref_is_latest.
    + now apply settle_ref_is_latest.
Qed.

Lemma calls_count (schedule : list Action) :
  length (calls (run schedule)) = length (List.filter is_execute schedule).
Proof.
  induction schedule as [|a schedule IH] using rev_ind; [reflexivity |].
  rewrite run_snoc, List.filter_app, length_app, <- IH.
  destruct a as [body | | i]; cbn [step calls List.filter is_execute length].
  - now rewrite length_app.
  - lia.
  - unfold read. destruct (calls (run schedule) !! i) as [c|]; [| lia].
    destruct (call_ending c); [lia |].
    destruct (aborted _ _); [cbn; rewrite length_insert; lia |].
    destruct (call_source c) as [text rest | | message];
      try (cbn; rewrite length_insert; lia).
    destruct (Api.process_chunk (call_buffer c) text) as [events kept].
    destruct (consume events _) as [l [|]]; cbn; rewrite length_insert; lia.
Qed.

(** X13: under every schedule of calls, cancellations and reads, the hook
    has made one controller for each [executeQuery] so far, and its ref
    is empty or holds the controller made last, not aborted: an abort
    never reaches a controller other than the latest, and an aborted
    controller is never in the ref. *)
Theorem ref_holds_latest_controller (schedule : list Action) :
  let w := run schedule in
  length (calls w) = length (List.filter is_execute schedule)
  /\ length (controllers (the_hook w)) = length (calls w)
  /\ match abortControllerRef (the_hook w) with
     | Some p =>
         S p = length (controllers (the_hook w))
         /\ controllers (the_hook w) !! p = Some false
     | None => True
     end.
Proof.
  cbn zeta. split; [apply calls_count |].
  induction schedule as [|a schedule IH] using rev_ind.
  - split; [reflexivity | exact I].
  - rewrite run_snoc. now apply step_ref_is_latest.
Qed.

Lemma cancelQuery_idle (h : HookState) :
  abortControllerRef h = None -> isStreaming h = false -> cancelQuery h = h.
Proof.
  intros Href Hs. unfold cancelQuery. rewrite Href.
  destruct h; cbn in *. now subst.
Qed.

(** X14: when the read that ends a call settles, the hook stops showing a
    stream and forgets its controller, whichever call it was: if another
    call is still reading, [cancelQuery] can no longer abort it, and is a
    no-op on the hook. *)
Theorem ended_call_disarms_cancel (schedule : list Action) (i : nat) (c : Call) :
  calls (run schedule) !! i = Some c ->
  settles_next c = true ->
  let w := run (schedule ++ [Read i]) in
  isStreaming (the_hook w) = false
  /\ abortControllerRef (the_hook w) = None
  /\ controllers (the_hook w) = controllers (the_hook (run schedule))
  /\ the_hook (run (schedule ++ [Read i; CancelQuery])) = the_hook w.
Proof.
  intros Hc Hnext. cbn zeta.
  assert (Hread : isStreaming (the_hook (run (schedule ++ [Read i]))) = false
                  /\ abortControllerRef (the_hook (run (schedule ++ [Read i]))) = None
                  /\ controllers (the_hook (run (schedule ++ [Read i])))
                     = controllers (the_hook (run schedule))).
  { rewrite run_snoc. cbn [step]. unfold read. rewrite Hc.
    destruct (cancellation_never_seen schedule) as [_ Hcalls].
    pose proof (Forall_lookup_1 _ _ _ _ Hcalls Hc) as [Hsig _].
    unfold settles_next in Hnext.
    destruct (call_ending c); [discriminate |].
    rewrite Hsig. cbn [aborted].
    destruct (call_source c); [discriminate | |]; repeat split. }
  destruct Hread as (Hs & Hr & Hctl). repeat split; try assumption.
  replace (schedule ++ [Read i; CancelQuery])
    with ((schedule ++ [Read i]) ++ [CancelQuery]) by now rewrite <- app_assoc.
  rewrite run_snoc. cbn [step the_hook]. now apply cancelQuery_idle.
Qed.

End WithParser.

Import Examples.

(** X14 where a second call is reading when the first one ends. *)
Lemma ended_call_disarms_cancel_witness :
  let schedule := [ExecuteQuery hello_world; Read 0; ExecuteQuery second_answer; Read 0] in
  let w := run (parser := sample_parser) (schedule ++ [Read 0]) in
  isStreaming (the_hook w) = false
  /\ abortControllerRef (the_hook w) = None
  /\ controllers (the_hook w)
     = controllers (the_hook (run (parser := sample_parser) schedule))
  /\ the_hook (run (parser := sample_parser) (schedule ++ [Read 0; CancelQuery]))
     = the_hook w.
Proof.
  apply (ended_call_disarms_cancel (parser := sample_parser)
           [ExecuteQuery hello_world; Read 0; ExecuteQuery second_answer; Read 0] 0
           {| call_signal := None; call_source := EndOfData; call_buffer := "";
              call_result := Some {| conversationId := "c1"; answer := "";
                                     sqlQuery := None |};
              call_ending := None |}).
  - reflexivity.
  - reflexivity.
Defined.

End WorldFacts.

(** ** More on the reconstruction of a conversation *)
Module ReconcileFacts.
Import Conversation Reconcile.

(** The step on an accumulator is the step on an empty one, appended. *)
Lemma transform_step_acc (ms : list Message) (p : option string) (m : ApiMessage) :
  transform_step (ms, p) m
  = (ms ++ fst (transform_step ([], p) m), snd (transform_step ([], p) m)).
Proof.
  unfold transform_step.
  destruct (role_of (api_role m)) as [r|]; cbn; [| now rewrite app_nil_r].
  destruct (JS.truthy (JS.trim (api_content m))); cbn; [reflexivity |].
  now rewrite app_nil_r.
Qed.

Lemma fold_transform_acc (history : list ApiMessage) (ms : list Message)
  (p : option string) :
  fold_left transform_step history (ms, p)
  = (ms ++ fst (fold_left transform_step history ([], p)),
     snd (fold_left transform_step history ([], p))).
Proof.
  revert ms p. induction history as [|m more IH]; intros ms p; cbn [fold_left].
  - cbn. now rewrite app_nil_r.
  - rewrite transform_step_acc.
    destruct (transform_step ([], p) m) as [d p']. cbn [fst snd].
    rewrite (IH (ms ++ d)), (IH d). cbn [fst snd].
    now rewrite app_assoc.
Qed.

Lemma transform_step_other_role (acc : list Message * option string) (m : ApiMessage) :
  is_chat_role m = false -> transform_step acc m = acc.
Proof.
  unfold is_chat_role, transform_step. destruct acc as [ms p].
  now destruct (role_of (api_role m)).
Qed.

Lemma fold_transform_filter (history : list ApiMessage)
  (acc : list Message * option string) :
  fold_left transform_step (List.filter is_chat_role history) acc
  = fold_left transform_step history acc.
Proof.
  revert acc. induction history as [|m more IH]; intros acc; [reflexivity |].
  cbn [List.filter fold_left]. destruct (is_chat_role m) eqn:Hm.
  - cbn [fold_left]. apply IH.
  - rewrite transform_step_other_role by exact Hm. apply IH.
Qed.

(** X15: records whose role is neither [user] nor [assistant] count for
    nothing, tool calls included: the history without them is rebuilt
    into the same messages. *)
Theorem other_roles_ignored (history : list ApiMessage) :
  transformMessages (List.filter is_chat_role history) = transformMessages history.
Proof. unfold transformMessages. now rewrite fold_transform_filter. Qed.

Lemma shown_assistant_step (ms : list Message) (p : option string) (a : ApiMessage) :
  shown_assistant a = true ->
  transform_step (ms, p) a
  = (ms ++ [ {| msg_id := api_id a; msg_role := assistant;
                msg_content := api_content a;
                msg_sqlQuery :=
                  if JS.truthy_opt (first_query a) then first_query a else p |} ],
     None).
Proof.
  unfold shown_assistant. intros Ha. apply andb_prop in Ha as [Hrole Hcontent].
  apply String.eqb_eq in Hrole. unfold transform_step, role_of. rewrite Hrole.
  cbn. rewrite Hcontent. cbn. unfold JS.or_else.
  now destruct (JS.truthy_opt (first_query a)).
Qed.

(** X16: a shown assistant message closes what came before it: the
    messages rebuilt from a history are those rebuilt from the part up to
    and including a shown assistant record, followed by those rebuilt from
    the rest on its own; no query crosses it. *)
Theorem reconstruction_restarts_after_answer (before after : list ApiMessage)
  (a : ApiMessage) :
  shown_assistant a = true ->
  transformMessages (before ++ a :: after)
  = transformMessages (before ++ [a]) ++ transformMessages after.
Proof.
  intros Ha. unfold transformMessages.
  rewrite !fold_left_app. cbn [fold_left].
  destruct (fold_left transform_step before ([], None)) as [ms p].
  rewrite (shown_assistant_step _ _ _ Ha).
  now rewrite fold_transform_acc.
Qed.

(** X16 at a history with a second question after the answer. *)
Lemma reconstruction_restarts_after_answer_witness :
  transformMessages (sample_history ++ sample_answer :: sample_history)
  = transformMessages (sample_history ++ [sample_answer])
    ++ transformMessages sample_history.
Proof.
  apply (reconstruction_restarts_after_answer sample_history sample_history sample_answer).
  reflexivity.
Defined.

Lemma pending_is_latest (history : list ApiMessage) (ms : list Message)
  (p : option string) :
  Forall (fun m => shown_assistant m = false) history ->
  snd (fold_left transform_step history (ms, p))
  = match latest_query history with Some q => Some q | None => p end.
Proof.
  intros Hh. revert ms p. induction Hh as [|m more Hm Hmore IH]; intros ms p.
  - reflexivity.
  - cbn [fold_left].
    assert (Hstep : snd (transform_step (ms, p) m)
                    = match captured m with Some q => Some q | None => p end).
    { unfold captured, is_chat_role, transform_step.
      unfold shown_assistant in Hm.
      destruct (role_of (api_role m)) as [r|] eqn:Hr; [| reflexivity].
      cbn [andb].
      destruct (JS.truthy (JS.trim (api_content m))) eqn:Hc; cbn.
      - destruct r.
        + cbn. destruct (first_query m) as [q|]; cbn; [destruct (JS.truthy q) |]; reflexivity.
        + unfold role_of in Hr.
          destruct (String.eqb (api_role m) "user"); [discriminate |].
          destruct (String.eqb (api_role m) "assistant"); discriminate.
      - destruct (first_query m) as [q|]; cbn; [destruct (JS.truthy q) |]; reflexivity. }
    destruct (transform_step (ms, p) m) as [ms' p'] eqn:Hts. cbn [snd] in Hstep.
    rewrite IH, Hstep. unfold latest_query.
    change (omap captured (m :: more))
      with (match captured m with
            | Some q => q :: omap captured more
            | None => omap captured more
            end).
    destruct (captured m) as [q|]; [| reflexivity].
    rewrite last_cons. now destruct (last (omap captured more)).
Qed.

(** X17: which query an assistant message is shown with: its own when it
    has one, and otherwise the latest one captured since the assistant
    message shown before it, from records of the assistant or of the
    user, shown or not; a user's message in between does not clear it. *)
Theorem answer_shows_latest_query (history : list ApiMessage) (a : ApiMessage) :
  Forall (fun m => shown_assistant m = false) history ->
  shown_assistant a = true ->
  transformMessages (history ++ [a])
  = transformMessages history
    ++ [ {| msg_id := api_id a; msg_role := assistant; msg_content := api_content a;
            msg_sqlQuery := latest_query (history ++ [a]) |} ].
Proof.
  intros Hh Ha. unfold transformMessages.
  rewrite fold_left_app. cbn [fold_left].
  pose proof (pending_is_latest history [] None Hh) as Hp.
  destruct (fold_left transform_step history ([], None)) as [ms p]. cbn [snd fst] in *.
  rewrite (shown_assistant_step _ _ _ Ha). cbn [fst].
  do 3 f_equal. subst p. unfold latest_query. rewrite omap_app, last_app.
  unfold shown_assistant in Ha. apply andb_prop in Ha as [Hrole _].
  apply String.eqb_eq in Hrole.
  change (omap captured [a])
    with (match captured a with Some q => [q] | None => [] end).
  unfold captured, is_chat_role, role_of. rewrite Hrole. cbn.
  destruct (JS.truthy_opt (first_query a)) eqn:Hq.
  - now destruct (first_query a).
  - cbn. now destruct (last (omap _ history)).
Qed.

(** X17 at a history where the query comes before a user's message and a
    tool record carries another. *)
Lemma answer_shows_latest_query_witness :
  transformMessages (sample_history ++ [sample_answer])
  = transformMessages sample_history
    ++ [ {| msg_id := api_id sample_answer; msg_role := assistant;
            msg_content := api_content sample_answer;
            msg_sqlQuery := latest_query (sample_history ++ [sample_answer]) |} ].
Proof.
  apply (answer_shows_latest_query sample_history sample_answer).
  - repeat constructor.
  - reflexivity.
Defined.

Example sample_history_query :
  latest_query (sample_history ++ [sample_answer]) = Some "SELECT 1".
Proof. reflexivity. Qed.

Lemma transform_step_emits (p : option string) (m : ApiMessage) :
  let out := fst (transform_step ([], p) m) in
  (out = [] \/ exists shown, out = [shown] /\ kept shown = offered m)
  /\ Forall (fun shown =>
               JS.truthy (JS.trim (msg_content shown)) = true
               /\ match msg_role shown with
                  | user => msg_sqlQuery shown = None
                  | assistant => True
                  end) out.
Proof.
  cbn zeta. unfold transform_step.
  destruct (role_of (api_role m)) as [r|]; cbn; [| split; [now left | constructor]].
  destruct (JS.truthy (JS.trim (api_content m))) eqn:Hc; cbn;
    [| split; [now left | constructor]].
  split.
  - right. eexists. split; reflexivity.
  - constructor; [| constructor]. cbn. split; [exact Hc | now destruct r].
Qed.

(** X18: the messages rebuilt from a history keep the order of the
    records they come from, with their ids and contents; none has blank
    content, and none of a user carries a query. *)
Theorem rebuilt_messages_well_formed (history : list ApiMessage) :
  sublist (map kept (transformMessages history)) (map offered history)
  /\ Forall (fun shown =>
               JS.truthy (JS.trim (msg_content shown)) = true
               /\ match msg_role shown with
                  | user => msg_sqlQuery shown = None
                  | assistant => True
                  end) (transformMessages history).
Proof.
  unfold transformMessages.
  induction history as [|m history IH] using rev_ind.
  - split; [constructor | constructor].
  - rewrite fold_left_app. cbn [fold_left].
    destruct IH as [IHsub IHall].
    destruct (fold_left transform_step history ([], None)) as [ms p]. cbn [fst] in *.
    rewrite transform_step_acc. cbn [fst].
    destruct (transform_step_emits p m) as [[Hout | (shown & Hout & Hkept)] Hall];
      rewrite Hout in *.
    + rewrite app_nil_r, map_app. split; [| exact IHall].
      now apply sublist_inserts_r.
    + rewrite !map_app. cbn [map]. rewrite Hkept. split.
      * now apply sublist_app.
      * apply Forall_app. now split.
Qed.

End ReconcileFacts.

(** ** The rest of the conversation hook *)
Module ConversationHookFacts.
Import ConversationHook.




End ConversationHookFacts.

(** ** The chat interface and the hook together *)
Module ChatFacts.
Import StreamingQuery StreamingQueryFacts Observed HookFacts Chat StringFacts.

Lemma update_last_placeholder (aid : string) (f : Message -> Message)
  (base : list Message) (a : Message) :
  msg_id a = aid -> update_last aid f (base ++ [a]) = Some (base ++ [f a]).
Proof.
  intros Hid. unfold update_last.
  now rewrite last_snoc, Hid, String.eqb_refl, removelast_last.
Qed.

Lemma update_last_total (aid : string) (f : Message -> Message) (prev : list Message) :
  prev <> [] -> exists ms, update_last aid f prev = Some ms /\ ms <> [].
Proof.
  intros Hne. unfold update_last.
  destruct (last prev) as [lastMsg|] eqn:Hlast.
  - destruct (String.eqb (msg_id lastMsg) aid); eexists; split; try reflexivity.
    + now destruct (removelast prev).
    + exact Hne.
  - now apply last_None in Hlast.
Qed.

(** The observers never find the list of messages empty, as long as the
    list they start from and the one [onError] puts back are not. *)
Lemma observe_all_total (aid : string) (newMessages : list Message)
  (submitted : option string) (cbs : list Callback) (st : State) :
  newMessages <> [] -> messages st <> [] ->
  exists st', observe_all aid newMessages submitted cbs st = Some st'
              /\ messages st' <> [].
Proof.
  intros Hnew. revert st. induction cbs as [|cb more IH]; intros st Hst.
  - now exists st.
  - cbn [observe_all].
    assert (Hone : exists st1, observe aid newMessages submitted cb st = Some st1
                               /\ messages st1 <> []).
    { destruct cb as [stage label | token | query | r | errorMsg code]; cbn [observe].
      - now exists st.
      - destruct (update_last_total aid
                    (fun lastMsg =>
                       {| msg_id := msg_id lastMsg; msg_role := msg_role lastMsg;
                          msg_content := msg_content lastMsg +:+ token;
                          msg_sqlQuery := msg_sqlQuery lastMsg |})
                    (messages st) Hst) as (ms & -> & Hms).
        cbn. eexists. split; [reflexivity | exact Hms].
      - destruct (update_last_total aid
                    (fun lastMsg =>
                       {| msg_id := msg_id lastMsg; msg_role := msg_role lastMsg;
                          msg_content := msg_content lastMsg;
                          msg_sqlQuery := Some query |})
                    (messages st) Hst) as (ms & -> & Hms).
        cbn. eexists. split; [reflexivity | exact Hms].
      - match goal with
        | |- context [update_last aid ?f (messages ?s)] =>
            assert (Hs : messages s = messages st) by
              (destruct (negb (JS.truthy_opt submitted) && _); reflexivity);
            rewrite Hs;
            destruct (update_last_total aid f (messages st) Hst) as (ms & -> & Hms)
        end.
        cbn. eexists. split; [reflexivity | exact Hms].
      - destruct (is_credential_code code); eexists; split; try reflexivity;
          exact Hnew. }
    destruct Hone as (st1 & -> & Hst1). cbn. now apply IH.
Qed.

(** What the observers make of the calls for one event that builds up the
    answer: the placeholder grows by the token's content, the other
    messages, the error and the input stay. *)
Lemma observe_building (aid : string) (newMessages : list Message)
  (submitted : option string) (event : StreamEvent) (st : State)
  (base : list Message) (a : Message) :
  builds_answer event = true ->
  messages st = base ++ [a] -> msg_id a = aid ->
  exists st' a',
    observe_all aid newMessages submitted (calls_for event) st = Some st'
    /\ messages st' = base ++ [a']
    /\ msg_id a' = aid /\ msg_role a' = msg_role a
    /\ msg_content a'
       = msg_content a +:+ SpecifiedAnswer.accumulated_text [event]
    /\ error st' = error st /\ input st' = input st.
Proof.
  intros Hb Hms Hid. unfold builds_answer in Hb.
  unfold calls_for, on_event, SpecifiedAnswer.accumulated_text.
  destruct (String.eqb_spec (ev_type event) "stage") as [Ht | _].
  - rewrite Ht. cbn [String.eqb Ascii.eqb andb].
    change ("stage" =? "token") with false. cbn [andb].
    destruct (JS.truthy_opt (ev_label event)); cbn.
    + exists st, a. rewrite !append_empty_r. now repeat split.
    + exists st, a. rewrite !append_empty_r. now repeat split.
  - destruct (String.eqb_spec (ev_type event) "token") as [Ht | _].
    + rewrite Ht. cbn [andb].
      destruct (ev_content event) as [[|c content]|]; cbn.
      * exists st, a. rewrite !append_empty_r. now repeat split.
      * rewrite Hms, (update_last_placeholder aid _ base a Hid). cbn.
        eexists _, _. split; [reflexivity |]. cbn.
        rewrite !append_empty_r. now repeat split.
      * exists st, a. rewrite !append_empty_r. now repeat split.
    + destruct (String.eqb_spec (ev_type event) "sql") as [Ht | _];
        [| discriminate Hb].
      rewrite Ht. cbn [andb].
      destruct (JS.truthy_opt (ev_query event)); cbn.
      * rewrite Hms, (update_last_placeholder aid _ base a Hid). cbn.
        eexists _, _. split; [reflexivity |]. cbn.
        rewrite !append_empty_r. now repeat split.
      * exists st, a. rewrite !append_empty_r. now repeat split.
Qed.

Lemma observe_complete (aid : string) (newMessages : list Message)
  (submitted : option string) (r : StreamResult) (st : State)
  (base : list Message) (a : Message) :
  messages st = base ++ [a] -> msg_id a = aid ->
  exists st',
    observe aid newMessages submitted (OnComplete r) st = Some st'
    /\ messages st'
       = base ++ [ {| msg_id := msg_id a; msg_role := msg_role a;
                      msg_content :=
                        if JS.truthy (answer r) then answer r else msg_content a;
                      msg_sqlQuery := sqlQuery r |} ]
    /\ error st' = error st /\ input st' = input st.
Proof.
  intros Hms Hid. cbn [observe].
  destruct (negb (JS.truthy_opt submitted) && JS.truthy (StreamingQuery.conversationId r));
    cbn [messages]; rewrite Hms, (update_last_placeholder aid _ base a Hid);
    eexists; (split; [reflexivity |]); now repeat split.
Qed.

Lemma accumulated_text_cons (event : StreamEvent) (more : list StreamEvent) :
  SpecifiedAnswer.accumulated_text (event :: more)
  = SpecifiedAnswer.accumulated_text [event] +:+ SpecifiedAnswer.accumulated_text more.
Proof. cbn. now rewrite append_empty_r. Qed.

Lemma observe_all_app (aid : string) (newMessages : list Message)
  (submitted : option string) (xs ys : list Callback) (st : State) :
  observe_all aid newMessages submitted (xs ++ ys) st
  = st' ← observe_all aid newMessages submitted xs st;
    observe_all aid newMessages submitted ys st'.
Proof.
  revert st. induction xs as [|x xs IH]; intros st; [reflexivity |].
  cbn [app observe_all].
  destruct (observe aid newMessages submitted x st) as [st1|]; cbn; [apply IH | reflexivity].
Qed.

Lemma observe_all_building (aid : string) (newMessages : list Message)
  (submitted : option string) (events : list StreamEvent) (st : State)
  (base : list Message) (a : Message) :
  Forall (fun e => builds_answer e = true) events ->
  messages st = base ++ [a] -> msg_id a = aid ->
  exists st' a',
    observe_all aid newMessages submitted (flat_map calls_for events) st = Some st'
    /\ messages st' = base ++ [a']
    /\ msg_id a' = aid /\ msg_role a' = msg_role a
    /\ msg_content a' = msg_content a +:+ SpecifiedAnswer.accumulated_text events
    /\ error st' = error st /\ input st' = input st.
Proof.
  intros Hall. revert st a.
  induction Hall as [|event more Hb Hmore IH]; intros st a Hms Hid.
  - exists st, a. cbn. rewrite append_empty_r. now repeat split.
  - cbn [flat_map]. rewrite observe_all_app.
    destruct (observe_building aid newMessages submitted event st base a Hb Hms Hid)
      as (st1 & a1 & -> & Hms1 & Hid1 & Hrole1 & Hc1 & He1 & Hi1).
    cbn [mbind option_bind].
    destruct (IH st1 a1 Hms1 Hid1) as (st2 & a2 & -> & Hms2 & Hid2 & Hrole2 & Hc2 & He2 & Hi2).
    exists st2, a2. split; [reflexivity |].
    rewrite accumulated_text_cons, Hc2, Hc1, append_assoc.
    repeat split; congruence.
Qed.

Section WithParser.
Context `{parser : JsonParser}.

(** X21: the chat interface merges the streamed text into the answer.
    When a question is submitted and the events of the body are stage,
    token and sql events followed by a last [done] event, the messages
    afterwards are the ones before, the user's question, and one
    assistant message whose content is the [done] event's answer when that
    is not empty and otherwise the text of the tokens put together, and
    whose query is the [done] event's; no error is shown and the input is
    empty. *)
Theorem submitted_answer_is_merged (userId assistantId : string) (body : Source)
  (h : HookState) (st : State) (earlier : list StreamEvent) (done_event : StreamEvent) :
  JS.truthy (JS.trim (input st)) = true ->
  isStreaming h = false ->
  Api.streamQuery_events body = (earlier ++ [done_event], Api.Completed) ->
  Forall (fun e => builds_answer e = true) earlier ->
  ev_type done_event = "done" ->
  exists st' h',
    handleSubmit userId assistantId body h st = Some (st', h')
    /\ messages st'
       = messages st
         ++ [ {| msg_id := userId; msg_role := user;
                 msg_content := JS.trim (input st); msg_sqlQuery := None |};
              {| msg_id := assistantId; msg_role := assistant;
                 msg_content :=
                   SpecifiedAnswer.answer_with_fallback earlier done_event;
                 msg_sqlQuery := ev_sql_query done_event |} ]
    /\ error st' = None /\ input st' = "".
Proof.
  intros Hinput Hidle Hevents Hearlier Hdone.
  unfold handleSubmit. rewrite Hinput, Hidle. cbn [negb orb].
  rewrite executeQuery_alone. cbn zeta. rewrite Hevents. cbn [fst snd].
  set (l0 := {| hook := executeQuery_begin h; result := None; observed := [] |}).
  destruct (events_handled_fresh (earlier ++ [done_event]) l0) as (Hobs & Hres & _).
  rewrite Hobs, Hres. subst l0. cbn [observed result app].
  rewrite flat_map_app, omap_app, last_app. cbn [flat_map].
  rewrite app_nil_r.
  assert (Hr : result_for done_event
               = Some {| StreamingQuery.conversationId := JS.or_str (ev_conversation_id done_event) "";
                         answer := JS.or_str (ev_answer done_event) "";
                         sqlQuery := ev_sql_query done_event |}).
  { rewrite result_for_done, Hdone. reflexivity. }
  assert (Hc : calls_for done_event
               = [OnComplete {| StreamingQuery.conversationId := JS.or_str (ev_conversation_id done_event) "";
                                answer := JS.or_str (ev_answer done_event) "";
                                sqlQuery := ev_sql_query done_event |}]).
  { unfold calls_for, on_event. rewrite Hdone. reflexivity. }
  change (omap result_for [done_event])
    with (match result_for done_event with Some r => [r] | None => [] end).
  rewrite Hr, Hc. cbn [last returned].
  rewrite observe_all_app.
  match goal with
  | |- context [observe_all ?aid ?nm ?sub (flat_map calls_for earlier) ?s] =>
      destruct (observe_all_building aid nm sub earlier s
                  (messages st
                   ++ [ {| msg_id := userId; msg_role := user;
                           msg_content := JS.trim (input st); msg_sqlQuery := None |} ])
                  {| msg_id := assistantId; msg_role := assistant; msg_content := "";
                     msg_sqlQuery := None |} Hearlier eq_refl eq_refl)
        as (st1 & a1 & -> & Hms1 & Hid1 & Hrole1 & Hc1 & He1 & Hi1)
  end.
  cbn [mbind option_bind observe_all].
  match goal with
  | |- context [observe ?aid ?nm ?sub (OnComplete ?r) st1] =>
      destruct (observe_complete aid nm sub r st1 _ a1 Hms1 Hid1)
        as (st2 & -> & Hms2 & He2 & Hi2)
  end.
  cbn [mbind option_bind].
  eexists _, _. split; [reflexivity |].
  split; [| split; [now rewrite He2, He1 | now rewrite Hi2, Hi1]].
  rewrite Hms2, <- app_assoc. cbn [app]. do 3 f_equal.
  rewrite Hid1, Hrole1, Hc1. cbn [answer sqlQuery].
  unfold SpecifiedAnswer.answer_with_fallback.
  destruct (ev_answer done_event) as [[|c ans]|]; reflexivity.
Qed.

(** X22: a query that fails, submitted while no error was shown, leaves
    the messages before and the user's question, without the placeholder,
    and shows the generic failure message, whatever [onError] was called
    with: the function tests the error of the state at the submission. *)
Theorem failed_submission_shows_generic_error (userId assistantId : string)
  (body : Source) (h : HookState) (st : State) :
  JS.truthy (JS.trim (input st)) = true ->
  isStreaming h = false ->
  JS.truthy_opt (error st) = false ->
  returned (snd (executeQuery body h)) = None ->
  exists st' h',
    handleSubmit userId assistantId body h st = Some (st', h')
    /\ messages st'
       = messages st
         ++ [ {| msg_id := userId; msg_role := user;
                 msg_content := JS.trim (input st); msg_sqlQuery := None |} ]
    /\ error st' = Some GENERIC_FAILURE.
Proof.
  intros Hinput Hidle Herror Hnull.
  unfold handleSubmit. rewrite Hinput, Hidle, Herror. cbn [negb orb].
  destruct (executeQuery body h) as [[h' observed] ending]. cbn [snd] in Hnull.
  rewrite Hnull.
  match goal with
  | |- context [observe_all ?aid ?nm ?sub observed ?s] =>
      destruct (observe_all_total aid nm sub observed s) as (st2 & -> & _)
  end.
  - now destruct (messages st).
  - cbn. now destruct (messages st).
  - cbn [mbind option_bind]. eexists _, _. split; [reflexivity |]. now split.
Qed.

End WithParser.

Import Examples.

(** X21 at the body "Hello world", whose [done] event has an empty
    answer. *)
Lemma submitted_answer_is_merged_witness :
  let st := {| messages := []; error := None; input := " Say hello ";
               conversationId := None; created := 0; settings_opened := [] |} in
  exists st' h',
    handleSubmit (parser := sample_parser) "1700000000000" "1700000000001"
      hello_world initial st = Some (st', h')
    /\ messages st'
       = messages st
         ++ [ {| msg_id := "1700000000000"; msg_role := user;
                 msg_content := JS.trim (input st); msg_sqlQuery := None |};
              {| msg_id := "1700000000001"; msg_role := assistant;
                 msg_content :=
                   SpecifiedAnswer.answer_with_fallback
                     [token_event "Hello "; token_event "world"] (done_event "c1" "");
                 msg_sqlQuery := ev_sql_query (done_event "c1" "") |} ]
    /\ error st' = None /\ input st' = "".
Proof.
  apply (submitted_answer_is_merged (parser := sample_parser)
           "1700000000000" "1700000000001" hello_world initial
           {| messages := []; error := None; input := " Say hello ";
              conversationId := None; created := 0; settings_opened := [] |}
           [token_event "Hello "; token_event "world"] (done_event "c1" "")).
  - reflexivity.
  - reflexivity.
  - reflexivity.
  - repeat constructor.
  - reflexivity.
Defined.

(** X22 at a body whose second read fails. *)
Lemma failed_submission_shows_generic_error_witness :
  let st := {| messages := []; error := None; input := "Say hello";
               conversationId := None; created := 0; settings_opened := [] |} in
  exists st' h',
    handleSubmit (parser := sample_parser) "1700000000000" "1700000000001"
      hello_then_failure initial st = Some (st', h')
    /\ messages st'
       = messages st
         ++ [ {| msg_id := "1700000000000"; msg_role := user;
                 msg_content := JS.trim (input st); msg_sqlQuery := None |} ]
    /\ error st' = Some GENERIC_FAILURE.
Proof.
  apply (failed_submission_shows_generic_error (parser := sample_parser)
           "1700000000000" "1700000000001" hello_then_failure initial
           {| messages := []; error := None; input := "Say hello";
              conversationId := None; created := 0; settings_opened := [] |}).
  - reflexivity.
  - reflexivity.
  - reflexivity.
  - reflexivity.
Defined.

End ChatFacts.

(** ** The export menu *)
Module ExportFacts.
Import ExportMenu StringFacts.

Lemma read_quoted_body_cell (s rest : string) :
  starts_with_quote rest = false ->
  read_quoted_body
    (replace_all QUOTE (String QUOTE (String QUOTE EmptyString)) s
     +:+ String QUOTE rest)
  = Some (s, rest).
Proof.
  intros Hrest. induction s as [|x s IH].
  - cbn. destruct rest as [|y rest]; [reflexivity |].
    cbn in Hrest. now rewrite Hrest.
  - cbn [replace_all]. destruct (Ascii.eqb x QUOTE) eqn:Hx.
    + apply Ascii.eqb_eq in Hx. subst x. cbn. now rewrite IH.
    + cbn. rewrite Hx. now rewrite IH.
Qed.

(** X23: a cell of the CSV export reads back as what was put in: the
    content of a cell written by [messagesToCsv], read the way CSV readers
    read a quoted cell, is the message's text, quotes, commas and line
    feeds included, and the reading stops where the cell ends. *)
Theorem csv_cell_reads_back (s rest : string) :
  starts_with_quote rest = false ->
  read_quoted_cell (csv_cell s +:+ rest) = Some (s, rest).
Proof.
  intros Hrest. unfold csv_cell, read_quoted_cell.
  cbn. rewrite append_assoc. now apply read_quoted_body_cell.
Qed.

(** X23 at a text with quotes, a comma and a line feed, before the comma
    that follows the cell. *)
Lemma csv_cell_reads_back_witness :
  let s := "say " +:+ String QUOTE "hi" +:+ String QUOTE ", then" +:+ Blocks.LF +:+ "stop" in
  read_quoted_cell (csv_cell s +:+ ",next") = Some (s, ",next").
Proof.
  apply (csv_cell_reads_back
           ("say " +:+ String QUOTE "hi" +:+ String QUOTE ", then" +:+ Blocks.LF +:+ "stop")
           ",next").
  reflexivity.
Defined.

Lemma replace_all_app (c : ascii) (by_ a b : string) :
  replace_all c by_ (a +:+ b) = replace_all c by_ a +:+ replace_all c by_ b.
Proof.
  induction a as [|x a IH]; [reflexivity |].
  cbn. destruct (Ascii.eqb x c); cbn; rewrite IH; [now rewrite append_assoc | reflexivity].
Qed.

(** The replacements one after the other are one pass over the
    characters. *)
Lemma escape_html_escaped (s : string) : escape_html s = escaped false s.
Proof.
  unfold escape_html. induction s as [|x s IH]; [reflexivity |].
  cbn [replace_all escaped]. unfold escaped_char.
  destruct (Ascii.eqb_spec x "&") as [-> | Hamp].
  - rewrite !replace_all_app, IH. reflexivity.
  - cbn [replace_all]. destruct (Ascii.eqb_spec x "<") as [-> | Hlt].
    + rewrite !replace_all_app, IH. reflexivity.
    + cbn [replace_all]. destruct (Ascii.eqb_spec x ">") as [-> | Hgt].
      * now rewrite IH.
      * cbn. now rewrite IH.
Qed.

Lemma content_html_escaped (s : string) : content_html s = escaped true s.
Proof.
  unfold content_html. rewrite escape_html_escaped.
  induction s as [|x s IH]; [reflexivity |].
  cbn [escaped]. rewrite replace_all_app, IH. f_equal.
  unfold escaped_char.
  destruct (Ascii.eqb_spec x "&") as [-> | Hamp]; [reflexivity |].
  destruct (Ascii.eqb_spec x "<") as [-> | Hlt]; [reflexivity |].
  destruct (Ascii.eqb_spec x ">") as [-> | Hgt]; [reflexivity |].
  cbn. now destruct (Ascii.eqb x (ascii_of_nat 10)).
Qed.

Lemma escaped_no_angle (s : string) : no_angle (escaped false s) = true.
Proof.
  induction s as [|x s IH]; [reflexivity |].
  cbn [escaped]. unfold escaped_char.
  destruct (Ascii.eqb_spec x "&") as [-> | Hamp]; [exact IH |].
  destruct (Ascii.eqb_spec x "<") as [-> | Hlt]; [exact IH |].
  destruct (Ascii.eqb_spec x ">") as [-> | Hgt]; [exact IH |].
  cbn. rewrite IH.
  destruct (Ascii.eqb_spec x "<"); [contradiction |].
  destruct (Ascii.eqb_spec x ">"); [contradiction | reflexivity].
Qed.

Lemma escaped_only_br (s : string) : only_br_tags (escaped true s) = true.
Proof.
  induction s as [|x s IH]; [reflexivity |].
  cbn [escaped]. unfold escaped_char.
  destruct (Ascii.eqb_spec x "&") as [-> | Hamp]; [exact IH |].
  destruct (Ascii.eqb_spec x "<") as [-> | Hlt]; [exact IH |].
  destruct (Ascii.eqb_spec x ">") as [-> | Hgt]; [exact IH |].
  cbn [andb]. destruct (Ascii.eqb x (ascii_of_nat 10)); [exact IH |].
  cbn. rewrite IH.
  destruct (Ascii.eqb_spec x "<"); [contradiction |].
  destruct (Ascii.eqb_spec x ">"); [contradiction | reflexivity].
Qed.

(** X24: the text of a message cannot open a tag in the page made for
    printing: the escaped SQL query holds no angle bracket, and in the
    escaped content the only angle brackets are those of the [<br>] tags
    that stand for the line feeds; the replacements made one after the
    other amount to one pass that escapes each character once. *)
Theorem escaped_text_opens_no_tag (s : string) :
  no_angle (escape_html s) = true
  /\ only_br_tags (content_html s) = true
  /\ escape_html s = escaped false s
  /\ content_html s = escaped true s.
Proof.
  rewrite content_html_escaped, escape_html_escaped.
  split; [apply escaped_no_angle |]. split; [apply escaped_only_br |]. now split.
Qed.

End ExportFacts.
